(** * prism: a capability-rewriting reverse proxy (cmd/prism/main.go)

    The program sits in front of a WebDriver endpoint.  Every inbound request
    body is decoded as a JSON object, the browser identity keys are deleted
    from it, and the re-encoded document is proxied to the target; every
    200 response of the target is decoded, the configured identity is written
    into [value.capabilities], and the re-encoded document is handed back.
    Before serving, [wait] polls the target until it answers.

    The development follows the source file top to bottom:

    - [json]: the values [encoding/json] produces for [interface{}] targets
      and the streaming decoder behind [json.NewDecoder(r).Decode(&m)];
    - [prism]: the configuration variables, [wait], the request handler and
      the [ModifyResponse] hook, with the part of [net/http] they rely on;
    - the properties, one section per concern.

    Go maps are reference values: [delete(m, k)] and [m[k] = v] on a map
    reached through [caps] change what [caps] holds.  A decoded document is
    a tree (the decoder allocates every map once and stores it under exactly
    one key), so an in-place update of an inner map is the same as writing
    the updated map back under the key it was read from; the model does the
    latter.

    What the standard library does outside the program's control is a
    parameter of the development: the [float64] a number literal converts to,
    [json.Marshal], and the text of an [error].  The properties hold for
    every choice of them; [strconv] and [encode] give the library's own
    conversion and encoder, with which the program is run on numbers. *)

From Stdlib Require Import ZArith NArith Ascii String List Lia SpecFloat.
From stdpp Require Import base option list gmap strings sorting.

Local Open Scope string_scope.
Local Open Scope Z_scope.

(** ** Bytes *)

Module bytes.

(** Go strings and byte slices are sequences of 8-bit bytes: [string]. *)

Definition quote : ascii := "034"%char.
Definition backslash : ascii := "\"%char.

Definition snoc (s : string) (c : ascii) : string := s +:+ String c EmptyString.

Definition code (c : ascii) : N := N_of_ascii c.

Definition in_range (lo hi : N) (c : ascii) : bool :=
  ((lo <=? code c) && (code c <=? hi))%N.

Definition isDigit (c : ascii) : bool := in_range 48 57 c.
Definition isDigit19 (c : ascii) : bool := in_range 49 57 c.

Definition isHex (c : ascii) : bool :=
  isDigit c || in_range 97 102 c || in_range 65 70 c.

Definition hexval (c : ascii) : N :=
  (if isDigit c then code c - 48
   else if in_range 97 102 c then code c - 87
   else code c - 55)%N.

(** [len(s)] as an [int64]. *)
Definition len (s : string) : Z := Z.of_nat (String.length s).

End bytes.

(** ** unicode/utf8 and unicode/utf16, as far as string literals need them *)

Module utf8.
Import bytes.

Definition RuneError : N := 65533.   (* U+FFFD *)

Definition byte_of (n : N) : ascii := ascii_of_N n.

(** [utf8.EncodeRune]; surrogates and runes beyond U+10FFFF encode as U+FFFD. *)
Definition EncodeRune (r : N) : string :=
  (if r <=? 127 then String (byte_of r) EmptyString
   else if r <=? 2047 then
     String (byte_of (192 + r / 64)) (String (byte_of (128 + r mod 64)) EmptyString)
   else if (55296 <=? r) && (r <=? 57343) || (1114111 <? r) then
     String (byte_of 239) (String (byte_of 191) (String (byte_of 189) EmptyString))
   else if r <=? 65535 then
     String (byte_of (224 + r / 4096))
       (String (byte_of (128 + (r / 64) mod 64))
          (String (byte_of (128 + r mod 64)) EmptyString))
   else
     String (byte_of (240 + r / 262144))
       (String (byte_of (128 + (r / 4096) mod 64))
          (String (byte_of (128 + (r / 64) mod 64))
             (String (byte_of (128 + r mod 64)) EmptyString))))%N.

Definition cont (c : ascii) : bool := in_range 128 191 c.

(** The well-formed two-, three- and four-byte sequences ([utf8.DecodeRune]
    accepts exactly these; anything else is one byte of [RuneError]). *)
Definition seq2 (c0 c1 : ascii) : bool := in_range 194 223 c0 && cont c1.

Definition seq3 (c0 c1 c2 : ascii) : bool :=
  (   (code c0 =? 224)%N && in_range 160 191 c1
   || in_range 225 236 c0 && cont c1
   || (code c0 =? 237)%N && in_range 128 159 c1
   || in_range 238 239 c0 && cont c1) && cont c2.

Definition seq4 (c0 c1 c2 c3 : ascii) : bool :=
  (   (code c0 =? 240)%N && in_range 144 191 c1
   || in_range 241 243 c0 && cont c1
   || (code c0 =? 244)%N && in_range 128 143 c1) && cont c2 && cont c3.

(** [utf16.IsSurrogate] and [utf16.DecodeRune]. *)
Definition IsSurrogate (r : N) : bool := ((55296 <=? r) && (r <? 57344))%N.

Definition DecodeRune16 (r1 r2 : N) : N :=
  (if (55296 <=? r1) && (r1 <? 56320) && (56320 <=? r2) && (r2 <? 57344)
   then (r1 - 55296) * 1024 + (r2 - 56320) + 65536
   else RuneError)%N.

End utf8.

(** ** encoding/json *)

Module json.
Import bytes.

(** What [Decode] stores into an [interface{}]: [nil], [bool], [float64],
    [string], [[]interface{}] and [map[string]interface{}]. *)
#[warnings="-register-all"]
Inductive value (float64 : Type) : Type :=
  | VNil
  | VBool (b : bool)
  | VFloat64 (f : float64)
  | VString (s : string)
  | VSlice (l : list (value float64))
  | VMap (m : gmap string (value float64)).

Arguments VNil {float64}.
Arguments VBool {float64} b.
Arguments VFloat64 {float64} f.
Arguments VString {float64} s.
Arguments VSlice {float64} l.
Arguments VMap {float64} m.

(** The errors of the package that reach the program. *)
Inductive error : Type :=
  | EOF                                            (* io.EOF *)
  | ErrUnexpectedEOF                               (* io.ErrUnexpectedEOF *)
  | SyntaxError (c : ascii) (context : string)     (* invalid character c <context> *)
  | UnmarshalTypeError (Value : string)            (* cannot unmarshal <Value> into <type> *)
  | UnsupportedValueError (Str : string).          (* json.Marshal refusing a value *)

(** *** String literals *)

(** The byte an escape letter stands for; [None] for [u] (and for the
    letters the scanner refuses). *)
Definition escape (e : ascii) : option ascii :=
  if (e =? quote)%char then Some quote
  else if (e =? backslash)%char then Some backslash
  else if (e =? "/")%char then Some "/"%char
  else if (e =? "b")%char then Some "008"%char
  else if (e =? "f")%char then Some "012"%char
  else if (e =? "n")%char then Some "010"%char
  else if (e =? "r")%char then Some "013"%char
  else if (e =? "t")%char then Some "009"%char
  else None.

Definition getu4 (a b c d : ascii) : N :=
  (((hexval a * 16 + hexval b) * 16 + hexval c) * 16 + hexval d)%N.

Definition replacement : string := utf8.EncodeRune utf8.RuneError.

(** [unquote], on the bytes between the quotes of a literal the scanner
    has accepted: escapes are resolved, a surrogate half that has no
    partner and every byte that is not part of well-formed UTF-8 become
    U+FFFD. *)
Fixpoint unquote (s : string) : string :=
  match s with
  | EmptyString => EmptyString
  | String c0 rest =>
      if (c0 =? backslash)%char then
        match rest with
        | String e rest0 =>
            match escape e with
            | Some c => String c (unquote rest0)
            | None =>
                match rest0 with
                | String a (String b (String c (String d rest1))) =>
                    let rr := getu4 a b c d in
                    if utf8.IsSurrogate rr then
                      match rest1 with
                      | String b1 (String u1 (String a' (String b' (String c' (String d' rest2))))) =>
                          let dec := utf8.DecodeRune16 rr (getu4 a' b' c' d') in
                          if (b1 =? backslash)%char && (u1 =? "u")%char
                             && isHex a' && isHex b' && isHex c' && isHex d'
                             && negb (dec =? utf8.RuneError)%N
                          then utf8.EncodeRune dec +:+ unquote rest2
                          else replacement +:+ unquote rest1
                      | _ => replacement +:+ unquote rest1
                      end
                    else utf8.EncodeRune rr +:+ unquote rest1
                | _ => EmptyString
                end
            end
        | EmptyString => EmptyString
        end
      else if (code c0 <? 128)%N then String c0 (unquote rest)
      else
        match rest with
        | String c1 rest1 =>
            if utf8.seq2 c0 c1 then String c0 (String c1 (unquote rest1))
            else
              match rest1 with
              | String c2 rest2 =>
                  if utf8.seq3 c0 c1 c2 then
                    String c0 (String c1 (String c2 (unquote rest2)))
                  else
                    match rest2 with
                    | String c3 rest3 =>
                        if utf8.seq4 c0 c1 c2 c3 then
                          String c0 (String c1 (String c2 (String c3 (unquote rest3))))
                        else replacement +:+ unquote rest
                    | _ => replacement +:+ unquote rest
                    end
              | _ => replacement +:+ unquote rest
              end
        | _ => replacement +:+ unquote rest
        end
  end.

(** *** The scanner and the decoder

    [Decode] reads one value from the stream: the scanner is stepped byte
    by byte until the first complete value has been seen, and that value
    is stored.  The two passes of the library (find the extent, then build
    the result) are one pass here: the parse stack holds the containers
    under construction. *)

Section decoder.
Variable float64 : Type.

(** [strconv.ParseFloat(s, 64)] on a literal of the JSON grammar; [None]
    when the literal is out of range. *)
Variable ParseFloat : string → option float64.

Local Abbreviation value := (value float64).

(** The entries of [scanner.parseState]. *)
Inductive parseState : Type :=
  | parseObjectKey (m : gmap string value)
      (* parsing an object key (before the colon) *)
  | parseObjectValue (m : gmap string value) (key : string)
      (* parsing the value of [key] (after the colon) *)
  | parseArrayValue (l : list value).
      (* parsing an array element *)

(** The state functions [scanner.step] ranges over.  [stateEndValue]
    carries the value that has just been completed, the string and
    number states the bytes of the literal so far; [stateLit] stands for
    [stateT] ... [stateNul] and carries the letters still expected. *)
Inductive stepfn : Type :=
  | stateBeginValueOrEmpty
  | stateBeginValue
  | stateBeginStringOrEmpty
  | stateBeginString
  | stateEndValue (v : value)
  | stateInString (s : string)
  | stateInStringEsc (s : string)
  | stateInStringEscU (n : nat) (s : string)
  | stateNeg (lit : string)
  | state1 (lit : string)
  | state0 (lit : string)
  | stateDot (lit : string)
  | stateDot0 (lit : string)
  | stateE (lit : string)
  | stateESign (lit : string)
  | stateE0 (lit : string)
  | stateLit (expect : string) (v : value).

Record scanner : Type := Scanner {
  step : stepfn;
  stack : list parseState;
  savedError : option error
}.

(** What one byte does. *)
Inductive scan : Type :=
  | scanContinue (s : scanner)
  | scanEnd (v : value) (saved : option error) (consumed : bool)
      (* the top-level value is complete; [consumed] tells whether the
         byte that showed it is part of the value *)
  | scanError (c : ascii) (context : string).

Definition maxNestingDepth : Z := 10000.

Definition goto (s : scanner) (f : stepfn) : scan :=
  scanContinue (Scanner f (stack s) (savedError s)).

Definition pushParseState (s : scanner) (c : ascii) (ps : parseState)
    (successState : stepfn) : scan :=
  let stack' := ps :: stack s in
  if Z.of_nat (length stack') <=? maxNestingDepth
  then scanContinue (Scanner successState stack' (savedError s))
  else scanError c "exceeded max depth".

(** A container is closed: it is the result when nothing encloses it,
    and a completed value of the enclosing container otherwise. *)
Definition popParseState (s : scanner) (rest : list parseState) (v : value) : scan :=
  match rest with
  | [] => scanEnd v (savedError s) true
  | _ :: _ => scanContinue (Scanner (stateEndValue v) rest (savedError s))
  end.

Definition isSpace (c : ascii) : bool :=
  (c =? " ")%char || (c =? "009")%char || (c =? "013")%char || (c =? "010")%char.

Definition do_stateEndValue (s : scanner) (v : value) (c : ascii) : scan :=
  match stack s with
  | [] => scanEnd v (savedError s) false
  | ps :: rest =>
      if isSpace c then goto s (stateEndValue v)
      else
        match ps with
        | parseObjectKey m =>
            match v with
            | VString key =>
                if (c =? ":")%char
                then scanContinue
                       (Scanner stateBeginValue (parseObjectValue m key :: rest) (savedError s))
                else scanError c "after object key"
            | _ => scanError c "after object key"
            end
        | parseObjectValue m key =>
            if (c =? ",")%char
            then scanContinue
                   (Scanner stateBeginString (parseObjectKey (<[key := v]> m) :: rest)
                      (savedError s))
            else if (c =? "}")%char
            then popParseState s rest (VMap (<[key := v]> m))
            else scanError c "after object key:value pair"
        | parseArrayValue l =>
            if (c =? ",")%char
            then scanContinue
                   (Scanner stateBeginValue (parseArrayValue (l ++ [v]) :: rest) (savedError s))
            else if (c =? "]")%char
            then popParseState s rest (VSlice (l ++ [v]))
            else scanError c "after array element"
        end
  end.

(** [convertNumber]: a literal out of range leaves [nil] behind and is
    reported when decoding ends ([saveError] keeps the first error). *)
Definition endNumber (s : scanner) (lit : string) (c : ascii) : scan :=
  match ParseFloat lit with
  | Some f => do_stateEndValue s (VFloat64 f) c
  | None =>
      let saved :=
        match savedError s with
        | Some e => Some e
        | None => Some (UnmarshalTypeError ("number " +:+ lit))
        end in
      do_stateEndValue (Scanner (step s) (stack s) saved) VNil c
  end.

Definition do_state0 (s : scanner) (lit : string) (c : ascii) : scan :=
  if (c =? ".")%char then goto s (stateDot (snoc lit c))
  else if (c =? "e")%char || (c =? "E")%char then goto s (stateE (snoc lit c))
  else endNumber s lit c.

Definition do_stateESign (s : scanner) (lit : string) (c : ascii) : scan :=
  if isDigit c then goto s (stateE0 (snoc lit c))
  else scanError c "in exponent of numeric literal".

Definition do_stateBeginString (s : scanner) (c : ascii) : scan :=
  if isSpace c then scanContinue s
  else if (c =? quote)%char then goto s (stateInString EmptyString)
  else scanError c "looking for beginning of object key string".

Definition do_stateBeginValue (s : scanner) (c : ascii) : scan :=
  if isSpace c then scanContinue s
  else if (c =? "{")%char then pushParseState s c (parseObjectKey ∅) stateBeginStringOrEmpty
  else if (c =? "[")%char then pushParseState s c (parseArrayValue []) stateBeginValueOrEmpty
  else if (c =? quote)%char then goto s (stateInString EmptyString)
  else if (c =? "-")%char then goto s (stateNeg (String c EmptyString))
  else if (c =? "0")%char then goto s (state0 (String c EmptyString))
  else if (c =? "t")%char then goto s (stateLit "rue" (VBool true))
  else if (c =? "f")%char then goto s (stateLit "alse" (VBool false))
  else if (c =? "n")%char then goto s (stateLit "ull" VNil)
  else if isDigit19 c then goto s (state1 (String c EmptyString))
  else scanError c "looking for beginning of value".

(** The word a literal state is reading. *)
Definition literal (v : value) : string :=
  match v with
  | VBool true => "true"
  | VBool false => "false"
  | _ => "null"
  end.

(** [s.step(s, c)]. *)
Definition scan_step (s : scanner) (c : ascii) : scan :=
  match step s with
  | stateBeginValueOrEmpty =>
      if isSpace c then scanContinue s
      else if (c =? "]")%char then
        match stack s with
        | parseArrayValue l :: rest => popParseState s rest (VSlice l)
        | _ => scanError c "after array element"
        end
      else do_stateBeginValue s c
  | stateBeginValue => do_stateBeginValue s c
  | stateBeginStringOrEmpty =>
      if isSpace c then scanContinue s
      else if (c =? "}")%char then
        match stack s with
        | parseObjectKey m :: rest => popParseState s rest (VMap m)
        | _ => scanError c "after object key:value pair"
        end
      else do_stateBeginString s c
  | stateBeginString => do_stateBeginString s c
  | stateEndValue v => do_stateEndValue s v c
  | stateInString str =>
      if (c =? quote)%char then goto s (stateEndValue (VString (unquote str)))
      else if (c =? backslash)%char then goto s (stateInStringEsc (snoc str c))
      else if (code c <? 32)%N then scanError c "in string literal"
      else goto s (stateInString (snoc str c))
  | stateInStringEsc str =>
      if (c =? "u")%char then goto s (stateInStringEscU 0 (snoc str c))
      else if bool_decide (is_Some (escape c)) then goto s (stateInString (snoc str c))
      else scanError c "in string escape code"
  | stateInStringEscU n str =>
      if isHex c then
        if (n <? 3)%nat then goto s (stateInStringEscU (S n) (snoc str c))
        else goto s (stateInString (snoc str c))
      else scanError c "in \u hexadecimal character escape"
  | stateNeg lit =>
      if (c =? "0")%char then goto s (state0 (snoc lit c))
      else if isDigit19 c then goto s (state1 (snoc lit c))
      else scanError c "in numeric literal"
  | state1 lit =>
      if isDigit c then goto s (state1 (snoc lit c))
      else do_state0 s lit c
  | state0 lit => do_state0 s lit c
  | stateDot lit =>
      if isDigit c then goto s (stateDot0 (snoc lit c))
      else scanError c "after decimal point in numeric literal"
  | stateDot0 lit =>
      if isDigit c then goto s (stateDot0 (snoc lit c))
      else if (c =? "e")%char || (c =? "E")%char then goto s (stateE (snoc lit c))
      else endNumber s lit c
  | stateE lit =>
      if (c =? "+")%char || (c =? "-")%char then goto s (stateESign (snoc lit c))
      else do_stateESign s lit c
  | stateESign lit => do_stateESign s lit c
  | stateE0 lit =>
      if isDigit c then goto s (stateE0 (snoc lit c))
      else endNumber s lit c
  | stateLit expect v =>
      match expect with
      | String x more =>
          if (c =? x)%char then
            match more with
            | EmptyString => goto s (stateEndValue v)
            | _ => goto s (stateLit more v)
            end
          else scanError c ("in literal " +:+ literal v +:+ " (expecting '"
                              +:+ String x "')")
      | EmptyString => scanError c ("in literal " +:+ literal v)
      end
  end.

(** [Decoder.readValue]: step through the stream up to the end of the
    first value.  At the end of the stream a space is fed to the scanner
    to let a pending number or literal end; a stream that stops inside a
    value is [ErrUnexpectedEOF], one with nothing but space is [EOF].
    The result is the value, the saved conversion error and the bytes
    after the value, which are not looked at. *)
Fixpoint scanWhile (s : scanner) (buf : string) (nonSpace : bool)
    : error + (value * option error * string) :=
  match buf with
  | EmptyString =>
      match scan_step s " " with
      | scanEnd v saved _ => inr (v, saved, EmptyString)
      | _ => inl (if nonSpace then ErrUnexpectedEOF else EOF)
      end
  | String c buf' =>
      match scan_step s c with
      | scanContinue s' => scanWhile s' buf' (nonSpace || negb (isSpace c))
      | scanEnd v saved consumed => inr (v, saved, if consumed then buf' else buf)
      | scanError c' context => inl (SyntaxError c' context)
      end
  end.

Definition reset : scanner := Scanner stateBeginValue [] None.

Definition readValue (body : string) : error + (value * option error * string) :=
  scanWhile reset body false.

(** [json.NewDecoder(body).Decode(&m)] for [var m map[string]interface{}]:
    an object becomes the map, [null] leaves [m] nil ([None]), every
    other value is an [UnmarshalTypeError] that names its kind (the
    numbers of such a value are not converted); an error saved while
    converting the numbers of an object is returned after the object has
    been stored. *)
Definition Decode (body : string) : error + option (gmap string value) :=
  match readValue body with
  | inl err => inl err
  | inr (v, saved, _) =>
      match v, saved with
      | VMap m, None => inr (Some m)
      | VMap _, Some err => inl err
      | VNil, None => inr None
      | VNil, Some _ => inl (UnmarshalTypeError "number")
      | VBool _, _ => inl (UnmarshalTypeError "bool")
      | VFloat64 _, _ => inl (UnmarshalTypeError "number")
      | VString _, _ => inl (UnmarshalTypeError "string")
      | VSlice _, _ => inl (UnmarshalTypeError "array")
      end
  end.

(** [json.Valid]: the whole of [data] is one value, surrounded by space
    at most. *)
Definition Valid (data : string) : bool :=
  match readValue data with
  | inl _ => false
  | inr (_, _, rest) => forallb isSpace (list_ascii_of_string rest)
  end.

(** *** Vocabulary of the decoder's properties *)

(** The first byte of the stream that is not space. *)
Fixpoint first_nonspace (buf : string) : option ascii :=
  match buf with
  | EmptyString => None
  | String c buf' => if isSpace c then first_nonspace buf' else Some c
  end.

(** What the scanner is bound to deliver, for a property [Q] of results:
    once the outermost container is open it decides the result, and
    before that the literal being read does. *)
Definition delivers (Q : value → option error → Prop) (s : scanner) : Prop :=
  match last (stack s) with
  | Some (parseArrayValue _) => ∀ l saved, Q (VSlice l) saved
  | Some (parseObjectKey _) | Some (parseObjectValue _ _) => ∀ m saved, Q (VMap m) saved
  | None =>
      match step s with
      | stateEndValue v | stateLit _ v => Q v (savedError s)
      | stateInString _ | stateInStringEsc _ | stateInStringEscU _ _ =>
          ∀ str saved, Q (VString str) saved
      | stateNeg _ | state1 _ | state0 _ | stateDot _ | stateDot0 _
      | stateE _ | stateESign _ | stateE0 _ =>
          (∀ f saved, Q (VFloat64 f) saved) ∧ (∀ err, Q VNil (Some err))
      | _ => False
      end
  end.

Definition delivered (Q : value → option error → Prop) (r : scan) : Prop :=
  match r with
  | scanContinue s' => delivers Q s'
  | scanEnd v saved _ => Q v saved
  | scanError _ _ => True
  end.

(** The value a stream holds, told from its first byte that is not
    space: an object after an opening brace, an array after an opening
    bracket, a string after a quote, a boolean after [t] or [f], [nil]
    after [n], and otherwise a number, or [nil] for a number out of range
    together with the error kept for the end. *)
Definition begins (c : ascii) (v : value) (saved : option error) : Prop :=
  if (c =? "{")%char then ∃ m, v = VMap m
  else if (c =? "[")%char then ∃ l, v = VSlice l
  else if (c =? quote)%char then ∃ str, v = VString str
  else if (c =? "-")%char || (c =? "0")%char then
    (∃ f, v = VFloat64 f) ∨ (v = VNil ∧ saved ≠ None)
  else if (c =? "t")%char || (c =? "f")%char then ∃ b, v = VBool b
  else if (c =? "n")%char then v = VNil ∧ saved = None
  else (∃ f, v = VFloat64 f) ∨ (v = VNil ∧ saved ≠ None).

End decoder.

Arguments parseObjectKey {float64} m.
Arguments parseObjectValue {float64} m key.
Arguments parseArrayValue {float64} l.
Arguments Valid {float64} ParseFloat data.
Arguments delivers {float64} Q s.
Arguments delivered {float64} Q r.
Arguments begins {float64} c v saved.

End json.

(** ** net/http, as far as the program uses it *)

Module http.

Definition StatusOK : Z := 200.
Definition StatusBadRequest : Z := 400.
Definition StatusInternalServerError : Z := 500.
Definition StatusBadGateway : Z := 502.

(** [http.Header]; the keys of a header read off the wire are in
    canonical form, and so is the one key the program deletes. *)
Abbreviation Header := (gmap string (list string)).

Definition Del (h : Header) (key : string) : Header := delete key h.

Module Request.
Record t : Type := mk {
  Method : string;
  Path : string;
  Body : string;
  ContentLength : Z
}.
End Request.

Module Response.
Record t : Type := mk {
  StatusCode : Z;
  Header : http.Header;
  Body : string;
  ContentLength : Z
}.
End Response.

(** What [Client.Do] hands back.  Its errors are [*url.Error] values
    wrapping a cause; [OtherError] is an error of any other dynamic type. *)
Inductive cause : Type :=
  | Canceled                        (* context.Canceled *)
  | DeadlineExceeded                (* context.DeadlineExceeded *)
  | OtherCause (msg : string).      (* connection refused, no such host, ... *)

Inductive doError : Type :=
  | UrlError (Err : cause)
  | OtherError (msg : string).

Record DoResult : Type := Do {
  resp : option Z;                  (* the status of the response, when there is one *)
  err : option doError
}.

End http.

(** ** package main *)

Module prism.
Import bytes json http.

(** [time.Duration] counts nanoseconds. *)
Definition Millisecond : Z := 1000000.
Definition Second : Z := 1000 * Millisecond.

Definition listen : string := ":4444".
Definition target : string := "http://localhost:4545".
Definition waitTimeout : Z := 30 * Second.
Definition gracePeriod : Z := 30 * Second.
Definition browserName : string := "safari".
Definition browserVersion : string := "13.0".

(** *** wait *)

Section wait.
(** [*url.URL], and [http.NewRequest(http.MethodHead, target, http.NoBody)]
    giving the URL of the request or the error of parsing [target]. *)
Variable URL : Type.
Variable NewRequest : string → string + URL.

Inductive waitError : Type :=
  | ErrNewRequest (msg : string)        (* fmt.Errorf("new %s request to %s: %v", ...) *)
  | ErrDo (Err : cause).                (* the *url.Error of the client *)

(** What the loop does that can be observed from outside. *)
Inductive event : Type :=
  | Head (target : string)              (* http.DefaultClient.Do(r.WithContext(ctx)) *)
  | After (d : Z).                      (* <-time.After(d) *)

(** One turn of the [for] loop, given what [Do] returned: the function
    returns, or sleeps and goes round again. *)
Inductive turn : Type :=
  | Return (r : waitError + URL)
  | Continue (d : Z).

Definition wait_turn (u : URL) (res : DoResult) : turn :=
  match err res with
  | Some (UrlError Canceled) => Return (inl (ErrDo Canceled))
  | Some (UrlError DeadlineExceeded) => Return (inl (ErrDo DeadlineExceeded))
  | Some (UrlError (OtherCause _)) => Continue (100 * Millisecond)
  | Some (OtherError _) => Return (inr u)
  | None => Return (inr u)
  end.

(** The loop against a network that answers the successive probes with
    [net].  The result is [None] when the loop is still running after
    the last listed answer. *)
Fixpoint wait (target : string) (net : list DoResult)
    : list event * option (waitError + URL) :=
  match NewRequest target with
  | inl msg => ([], Some (inl (ErrNewRequest msg)))
  | inr u =>
      match net with
      | [] => ([], None)
      | res :: net' =>
          match wait_turn u res with
          | Return r => ([Head target], Some r)
          | Continue d =>
              let '(tr, r) := wait target net' in
              (Head target :: After d :: tr, r)
          end
      end
  end.

(** A failure of the client that is not the end of the context. *)
Definition transient (res : DoResult) : bool :=
  match err res with
  | Some (UrlError (OtherCause _)) => true
  | _ => false
  end.

(** [n] probes, each followed by the pause. *)
Fixpoint polls (target : string) (n : nat) : list event :=
  match n with
  | O => []
  | S n' => Head target :: After (100 * Millisecond) :: polls target n'
  end.

End wait.

Arguments Return {URL} r.
Arguments Continue {URL} d.

(** *** The handler *)

Section handler.
Variable float64 : Type.
Variable ParseFloat : string → option float64.

(** [json.Marshal], and [err.Error()]. *)
Variable Marshal : value float64 → error + string.
Variable Error : error → string.

Local Abbreviation value := (value float64).
Local Abbreviation Decode := (Decode float64 ParseFloat).

(** [v, ok := m[k]] *)
Definition index (m : gmap string value) (k : string) : value * bool :=
  match m !! k with
  | Some v => (v, true)
  | None => (VNil, false)
  end.

(** [m, ok := v.(map[string]interface{})] *)
Definition assert_ok (v : value) : gmap string value * bool :=
  match v with
  | VMap m => (m, true)
  | _ => (∅, false)
  end.

(** [m := v.(map[string]interface{})]: the one-result form panics when
    [v] holds anything else. *)
Definition assert (v : value) : string + gmap string value :=
  match v with
  | VMap m => inr m
  | _ => inl "interface conversion: interface {} is not map[string]interface {}"
  end.

(** A variable of type [map[string]interface{}] is nil ([None]) or a
    map; reading a nil map finds nothing, [json.Marshal] writes it as
    [null]. *)
Definition index_var (caps : option (gmap string value)) (k : string) : value * bool :=
  match caps with
  | Some m => index m k
  | None => (VNil, false)
  end.

Definition of_var (caps : option (gmap string value)) : value :=
  match caps with
  | Some m => VMap m
  | None => VNil
  end.

(** The map held under [k] has been changed in place to [m']. *)
Definition updated (caps : option (gmap string value)) (k : string)
    (m' : gmap string value) : option (gmap string value) :=
  match caps with
  | Some m => Some (<[k := VMap m']> m)
  | None => None
  end.

(** The body of the loop over the two match keys, on the map [m] of
    [capabilities]. *)
Definition strip_match (m : gmap string value) (match_ : string) : gmap string value :=
  let '(m0, ok) := index m match_ in
  if ok then
    let '(m1, ok) := assert_ok m0 in
    if ok then <[match_ := VMap (delete "browserVersion" (delete "browserName" m1))]> m
    else m
  else m.

(** Lines 82-99: the deletions on the decoded document. *)
Definition strip (caps : option (gmap string value)) : option (gmap string value) :=
  let caps :=
    let '(desiredCapabilities, ok) := index_var caps "desiredCapabilities" in
    if ok then
      let '(m, ok) := assert_ok desiredCapabilities in
      if ok then updated caps "desiredCapabilities" (delete "version" (delete "browserName" m))
      else caps
    else caps in
  let '(w3cCapabilities, ok) := index_var caps "capabilities" in
  if ok then
    let '(m, ok) := assert_ok w3cCapabilities in
    if ok then updated caps "capabilities" (foldl strip_match m ["alwaysMatch"; "firstMatch"])
    else caps
  else caps.

(** How the handler function ends. *)
Inductive served : Type :=
  | http_Error (error : string) (code : Z)
      (* http.Error(w, error, code); return *)
  | ServeHTTP (r : Request.t).
      (* (&httputil.ReverseProxy{...}).ServeHTTP(w, r) *)

(** Lines 100-108 and 141: the document is encoded, and the request
    goes to the proxy with the new body and its length. *)
Definition forward (r : Request.t) (doc : value) : served :=
  match Marshal doc with
  | inl err => http_Error (Error err) StatusInternalServerError
  | inr body =>
      ServeHTTP (Request.mk (Request.Method r) (Request.Path r) body (len body))
  end.

(** Lines 76-108. *)
Definition handler (r : Request.t) : served :=
  match Decode (Request.Body r) with
  | inl err => http_Error (Error err) StatusBadRequest
  | inr caps => forward r (of_var (strip caps))
  end.

(** *** ModifyResponse *)

Inductive proxyError : Type :=
  | DecodeJsonResponse (err : error)   (* fmt.Errorf("decode json response: %v", err) *)
  | EncodeJsonResponse (err : error).  (* fmt.Errorf("encode json response: %v", err) *)

(** A call returns or panics. *)
Inductive call (A : Type) : Type :=
  | Returns (a : A)
  | Panics (msg : string).

(** Lines 122-131: the writes on the decoded response.  On line 123 the
    assertion has one result, and the condition [ok] is the flag of the
    lookup on line 122. *)
Definition inject (values : option (gmap string value))
    : call (option (gmap string value)) :=
  let '(o, ok) := index_var values "value" in
  if ok then
    match assert o with
    | inl msg => Panics _ msg
    | inr value =>
        if ok then
          let '(o, ok) := index value "capabilities" in
          if ok then
            let '(capabilities, ok) := assert_ok o in
            if ok then
              let capabilities := <["browserName" := VString browserName]> capabilities in
              let capabilities := <["browserVersion" := VString browserVersion]> capabilities in
              Returns _ (updated values "value" (<["capabilities" := VMap capabilities]> value))
            else Returns _ values
          else Returns _ values
        else Returns _ values
    end
  else Returns _ values.

(** Lines 132-139: the document is encoded; the header loses its
    [Content-Length], the response gets the new length and body. *)
Definition reencode (resp : Response.t) (doc : value) : call (proxyError + Response.t) :=
  match Marshal doc with
  | inl err => Returns _ (inl (EncodeJsonResponse err))
  | inr buf =>
      Returns _ (inr (Response.mk
        (Response.StatusCode resp)
        (Del (Response.Header resp) "Content-Length")
        buf
        (len buf)))
  end.

(** Lines 112-140: the error returned and the response as the call
    leaves it. *)
Definition ModifyResponse (resp : Response.t) : call (proxyError + Response.t) :=
  if negb (Response.StatusCode resp =? StatusOK) then Returns _ (inr resp)
  else
    match Decode (Response.Body resp) with
    | inl err => Returns _ (inl (DecodeJsonResponse err))
    | inr values =>
        match inject values with
        | Panics _ msg => Panics _ msg
        | Returns _ values => reencode resp (of_var values)
        end
    end.

(** *** The exchange

    [ReverseProxy.ServeHTTP] sends the request to the target and passes
    the response through [ModifyResponse]; when the hook returns an
    error the default error handler answers 502 with no body, and when
    the transport fails it does the same.  A panic unwinds the handler:
    the server recovers it and closes the connection, and goes on
    serving. *)
Inductive reply : Type :=
  | Written (code : Z) (body : string)    (* written by the proxy itself *)
  | Copied (resp : Response.t)            (* the response of the target, as the hook left it *)
  | Aborted (msg : string).               (* no response: the handler panicked *)

(** The requests sent to the target, and what the client gets.
    [RoundTrip] is the target: [None] is a transport failure. *)
Definition exchange (RoundTrip : Request.t → option Response.t) (r : Request.t)
    : list Request.t * reply :=
  match handler r with
  | http_Error error code => ([], Written code (error +:+ String "010" EmptyString))
  | ServeHTTP outreq =>
      match RoundTrip outreq with
      | None => ([outreq], Written StatusBadGateway EmptyString)
      | Some res =>
          match ModifyResponse res with
          | Returns _ (inl _) => ([outreq], Written StatusBadGateway EmptyString)
          | Returns _ (inr res') => ([outreq], Copied res')
          | Panics _ msg => ([outreq], Aborted msg)
          end
      end
  end.

(** The answer to a body that does not decode: [http.Error] ends the
    message with a newline. *)
Definition BadRequest (err : error) : reply :=
  Written StatusBadRequest (Error err +:+ String "010" EmptyString).

End handler.

Arguments Returns {A} a.
Arguments Panics {A} msg.

End prism.

(** ** Vocabulary of the properties *)

Module doc.
Import json.

(** [m'] agrees with [m] on every key outside [keys]. *)
Definition same_except {A : Type} (keys : list string) (m m' : gmap string A) : Prop :=
  ∀ k, k ∉ keys → m' !! k = m !! k.

Section doc.
Context {float64 : Type}.
Local Abbreviation object := (gmap string (value float64)).

(** Under [k], an object of [m] is an object of [m'] related by [R];
    anything else under [k], or nothing, is the same in [m']. *)
Definition at_key (k : string) (R : object → object → Prop) (m m' : object) : Prop :=
  match m !! k with
  | Some (VMap o) => ∃ o', m' !! k = Some (VMap o') ∧ R o o'
  | other => m' !! k = other
  end.

(** None of [keys] is in the object under [k], if there is one. *)
Definition absent_under (k : string) (keys : list string) (m : object) : Prop :=
  ∀ o, m !! k = Some (VMap o) → ∀ key, key ∈ keys → o !! key = None.

(** The document carries no browser identity where the program looks for
    one. *)
Definition no_identity (caps : object) : Prop :=
  absent_under "desiredCapabilities" ["browserName"; "version"] caps
  ∧ ∀ c, caps !! "capabilities" = Some (VMap c) →
      absent_under "alwaysMatch" ["browserName"; "browserVersion"] c
      ∧ absent_under "firstMatch" ["browserName"; "browserVersion"] c.

(** [f] applied to the object under a key, when there is one. *)
Definition on_object (f : object → object) (o : option (value float64))
    : option (value float64) :=
  match o with
  | Some (VMap m) => Some (VMap (f m))
  | other => other
  end.

End doc.

End doc.

(** ** Closed instances, to run the model

    Numbers are kept as their literal, every literal converts, and
    documents are written out compactly with their keys in order. *)

Module example.
Import bytes json http prism.

Definition float64 : Type := string.
Definition ParseFloat (lit : string) : option float64 := Some lit.

Definition quoted (s : string) : string :=
  String quote
    ((fix go (s : string) : string :=
        match s with
        | EmptyString => String quote EmptyString
        | String c s' =>
            if (c =? quote)%char || (c =? backslash)%char
            then String backslash (String c (go s'))
            else String c (go s')
        end) s).

Definition join (sep : string) (l : list string) : string :=
  match l with
  | [] => EmptyString
  | x :: l' => foldl (λ acc y, acc +:+ sep +:+ y) x l'
  end.

Definition key_le (x y : string * string) : Prop := String.leb x.1 y.1 = true.

#[local] Instance key_le_dec x y : Decision (key_le x y).
Proof. unfold key_le. apply _. Defined.

Fixpoint encode (v : value float64) : string :=
  match v with
  | VNil => "null"
  | VBool b => if b then "true" else "false"
  | VFloat64 f => f
  | VString s => quoted s
  | VSlice l => "[" +:+ join "," (map encode l) +:+ "]"
  | VMap m =>
      "{" +:+ join "," (map (λ kv, quoted kv.1 +:+ ":" +:+ kv.2)
                          (merge_sort key_le (map_to_list (encode <$> m)))) +:+ "}"
  end.

Definition Marshal (v : value float64) : error + string := inr (encode v).

Definition Error (e : error) : string :=
  match e with
  | EOF => "EOF"
  | ErrUnexpectedEOF => "unexpected EOF"
  | SyntaxError c context => "invalid character " +:+ String c EmptyString +:+ " " +:+ context
  | UnmarshalTypeError v => "json: cannot unmarshal " +:+ v
  | UnsupportedValueError s => "json: unsupported value: " +:+ s
  end.

(** JSON text is written with ['] for the double quote. *)
Definition js (s : string) : string :=
  string_of_list_ascii
    (map (λ c, if (c =? "'")%char then quote else c) (list_ascii_of_string s)).

Definition post (body : string) : Request.t :=
  Request.mk "POST" "/session" body (len body).

Definition ok (body : string) : Response.t :=
  Response.mk 200 {[ "Content-Length" := [ "7" ] ]} body 7.

Definition handler := handler float64 ParseFloat Marshal Error.
Definition ModifyResponse := ModifyResponse float64 ParseFloat Marshal.
Definition exchange := exchange float64 ParseFloat Marshal Error.
Definition Decode := Decode float64 ParseFloat.

(** URLs are kept as text and every target parses. *)
Definition NewRequest (target : string) : string + string := inr target.
Definition wait := wait string NewRequest.

(** A session request in both schemas, with a [firstMatch] array. *)
Definition new_session : string :=
  js ("{'desiredCapabilities':{'browserName':'firefox','version':'70','platform':'MAC'},"
      +:+ "'capabilities':{'alwaysMatch':{'browserName':'firefox','acceptInsecureCerts':true},"
      +:+ "'firstMatch':[{'browserName':'chrome'}]},'user':'ci'}").

Definition new_session_caps : gmap string (value float64) :=
  {[ "desiredCapabilities" :=
       VMap {[ "browserName" := VString "firefox";
               "version" := VString "70";
               "platform" := VString "MAC" ]};
     "capabilities" :=
       VMap {[ "alwaysMatch" :=
                 VMap {[ "browserName" := VString "firefox";
                         "acceptInsecureCerts" := VBool true ]};
               "firstMatch" := VSlice [ VMap {[ "browserName" := VString "chrome" ]} ] ]};
     "user" := VString "ci" ]}.

(** The answer of the target to it. *)
Definition session_created : string :=
  js ("{'value':{'sessionId':'3f','capabilities':{'browserName':'Safari',"
      +:+ "'platformName':'mac'}}}").

Definition session_capabilities : gmap string (value float64) :=
  {[ "browserName" := VString "Safari"; "platformName" := VString "mac" ]}.

Definition session_value : gmap string (value float64) :=
  {[ "sessionId" := VString "3f"; "capabilities" := VMap session_capabilities ]}.

Definition session_values : gmap string (value float64) :=
  {[ "value" := VMap session_value ]}.

(** An answer of the target that is not a success. *)
Definition not_found : Response.t :=
  Response.mk 404 {[ "Content-Length" := [ "9" ] ]} "not found" 9.

(** A target that is down for three probes. *)
Definition refused : DoResult := Do None (Some (UrlError (OtherCause "connection refused"))).
Definition booting : list DoResult := [refused; refused; refused].

End example.

(** ** Vocabulary of the further properties *)

Module more.
Import json http prism.

Section more.
Context {float64 : Type}.
Local Abbreviation object := (gmap string (value float64)).

(** The decoded response has no object under [value.capabilities]: it is
    nil, or has no [value], or an object under [value] in which
    [capabilities] is missing or is not an object. *)
Definition lacks_capabilities (values : option object) : Prop :=
  ∀ vs, values = Some vs →
    vs !! "value" = None
    ∨ ∃ value, vs !! "value" = Some (VMap value)
               ∧ ∀ c, value !! "capabilities" ≠ Some (VMap c).

(** The object of [value.capabilities] after the two assignments. *)
Definition canonical (c : object) : object :=
  <["browserVersion" := VString browserVersion]> (<["browserName" := VString browserName]> c).

End more.

(** The time spent in [time.After]. *)
Fixpoint slept (tr : list event) : Z :=
  match tr with
  | [] => 0
  | Head _ :: tr' => slept tr'
  | After d :: tr' => d + slept tr'
  end.

(** The probes made. *)
Fixpoint probes (tr : list event) : nat :=
  match tr with
  | [] => O
  | Head _ :: tr' => S (probes tr')
  | After _ :: tr' => probes tr'
  end.

End more.

(** ** path, and the proxy's Director *)

Module path.
Import bytes.

(** The output buffer of [Clean] is kept with its last byte first:
    [append] is a cons, [out.w] the length, and after [out.w--] the byte
    at [out.index(out.w)] is the one just dropped. *)

Definition slash : ascii := "/"%char.
Definition dot : ascii := "."%char.

(** [r == n || path[r] == '/'], on what is left of the path. *)
Definition at_end (rest : string) : bool :=
  match rest with
  | EmptyString => true
  | String c _ => (c =? slash)%char
  end.

(** [for out.w > dotdot && out.index(out.w) != '/' { out.w-- }], with
    [top] the byte at [out.index(out.w)]. *)
Fixpoint unwind (dotdot : nat) (top : ascii) (out : list ascii) : list ascii :=
  match out with
  | [] => []
  | c :: out' =>
      if (dotdot <? length out)%nat && negb (top =? slash)%char
      then unwind dotdot c out'
      else out
  end.

(** The [..] case: back up over the last element if there is one, and
    else, in a path that is not rooted, write the [..] out. *)
Definition backtrack (rooted : bool) (out : list ascii) (dotdot : nat)
    : list ascii * nat :=
  if (dotdot <? length out)%nat then
    match out with
    | top :: out' => (unwind dotdot top out', dotdot)
    | [] => (out, dotdot)
    end
  else if negb rooted then
    let out := if (0 <? length out)%nat then slash :: out else out in
    let out := dot :: dot :: out in
    (out, length out)
  else (out, dotdot).

(** The loop of [Clean] over the rest of the path.  [copying] says that
    the loop is inside the [default] case, copying an element up to the
    next slash. *)
Fixpoint clean_loop (rooted copying : bool) (out : list ascii) (dotdot : nat)
    (rest : string) : list ascii :=
  match rest with
  | EmptyString => out
  | String c rest' =>
      if copying then
        if (c =? slash)%char then clean_loop rooted false out dotdot rest'
        else clean_loop rooted true (c :: out) dotdot rest'
      else if (c =? slash)%char then
        (* empty path element *)
        clean_loop rooted false out dotdot rest'
      else if (c =? dot)%char && at_end rest' then
        (* . element *)
        clean_loop rooted false out dotdot rest'
      else
        let default :=
          let out :=
            if rooted && negb (length out =? 1)%nat
               || negb rooted && negb (length out =? 0)%nat
            then slash :: out else out in
          clean_loop rooted true (c :: out) dotdot rest' in
        match rest' with
        | String c1 rest'' =>
            if (c =? dot)%char && (c1 =? dot)%char && at_end rest'' then
              (* .. element: remove to last / *)
              let '(out, dotdot) := backtrack rooted out dotdot in
              clean_loop rooted false out dotdot rest''
            else default
        | EmptyString => default
        end
  end.

(** [path.Clean] *)
Definition Clean (path : string) : string :=
  match path with
  | EmptyString => "."
  | String c rest =>
      let rooted := (c =? slash)%char in
      let out :=
        if rooted then clean_loop true false [slash] 1 rest
        else clean_loop false false [] 0 path in
      match out with
      | [] => "."
      | _ => string_of_list_ascii (rev out)
      end
  end.

(** [path.Join]: the elements that come after the first non-empty one are
    joined to it with slashes, and the result is cleaned; no element, or
    empty ones only, give the empty string. *)
Fixpoint join_buf (buf : string) (elem : list string) : string :=
  match elem with
  | [] => buf
  | e :: elem' =>
      if (0 <? String.length buf)%nat || negb (String.eqb e EmptyString)
      then join_buf ((if (0 <? String.length buf)%nat
                      then buf +:+ String slash EmptyString else buf) +:+ e) elem'
      else join_buf buf elem'
  end.

Definition Join (elem : list string) : string :=
  if forallb (λ e, String.eqb e EmptyString) elem then EmptyString
  else Clean (join_buf EmptyString elem).

End path.

Module route.

(** The fields of [url.URL] that matter to the proxy. *)
Record URL : Type := mkURL {
  Scheme : string;
  Host : string;
  Path : string;
  RawQuery : string
}.

(** Lines 109-111: the request URL after the [Director], for the target
    [u] that [wait] returned. *)
Definition Director (u : URL) (r : URL) : URL :=
  mkURL (Scheme u) (Host u) (path.Join [Path u; Path r]) (RawQuery r).

End route.

(** ** Paths as lists of elements *)

Module elements.
Import path.

(** The path that has a slash before each element of the list: [/a/b] for
    [a; b], [/a/] for [a] followed by the empty element.  Every path that
    is rooted is of this form, and so is the empty path. *)
Fixpoint abs (elems : list string) : string :=
  match elems with
  | [] => EmptyString
  | e :: elems' => String slash (e +:+ abs elems')
  end.

Definition no_slash (e : string) : Prop :=
  Forall (λ c, c ≠ slash) (list_ascii_of_string e).

(** An element that names something: not empty, not [.], not [..]. *)
Definition plain (e : string) : Prop :=
  e ≠ EmptyString ∧ e ≠ "." ∧ e ≠ ".." ∧ no_slash e.

(** What an element does to the elements before it. *)
Definition resolve (stack : list string) (e : string) : list string :=
  if decide (e = EmptyString ∨ e = ".") then stack
  else if decide (e = "..") then removelast stack
  else stack ++ [e].

(** The rooted path of a list of elements. *)
Definition root (stack : list string) : string :=
  match stack with
  | [] => "/"
  | _ => abs stack
  end.

(** What is left after the slash that ends an element. *)
Definition skip (tail : string) : string :=
  match tail with
  | EmptyString => EmptyString
  | String _ t => t
  end.

(** The buffer of [Clean] when it holds the rooted path of [stack]. *)
Definition R (stack : list string) : list ascii :=
  rev (list_ascii_of_string (root stack)).

End elements.

(** ** strconv: float64 and its decimal forms

    The numbers of a decoded document are [float64] values.  The two
    conversions of the library are given here for the binary64 format of
    IEEE 754 ([spec_float] with a mantissa of 53 bits): the nearest
    float64 of a decimal literal, and the shortest decimal that converts
    back to a float64. *)

Module strconv.
Import bytes.

Definition float64 : Type := spec_float.
Definition prec : Z := 53.
Definition emax : Z := 1024.

(** The decimal digits at the head of [s]: their value on top of [acc],
    how many there are, and what follows them. *)
Fixpoint digits (s : string) (acc : Z) (n : Z) : Z * Z * string :=
  match s with
  | String c s' =>
      if isDigit c then digits s' (acc * 10 + Z.of_N (code c - 48)) (n + 1)
      else (acc, n, s)
  | EmptyString => (acc, n, s)
  end.

(** The float64 nearest to [mant * 10^exp10], halfway cases going to the
    even mantissa; an infinity when the value is beyond the largest
    float64. *)
Definition nearest (neg : bool) (mant : Z) (exp10 : Z) : float64 :=
  match mant with
  | Zpos m =>
      SFdiv prec emax
        (S754_finite neg (m * Z.to_pos (10 ^ Z.max exp10 0)) 0)
        (S754_finite false (Z.to_pos (10 ^ Z.max (- exp10) 0)) 0)
  | _ => S754_zero neg
  end.

(** [strconv.ParseFloat(s, 64)] on a decimal literal: a sign, digits, a
    fraction, an exponent.  The error is [ErrSyntax] for anything else
    (the scanner lets no such literal through) and [ErrRange] for a value
    that rounds to an infinity. *)
Definition ParseFloat (s : string) : option float64 :=
  let '(neg, s) :=
    match s with
    | String "-" s' => (true, s')
    | _ => (false, s)
    end in
  let '(int, ni, s) := digits s 0 0 in
  let '(mant, nf, s) :=
    match s with
    | String "." s' => digits s' int 0
    | _ => (int, 0, s)
    end in
  let '(exp, ok, s) :=
    match s with
    | String c s' =>
        if (c =? "e")%char || (c =? "E")%char then
          let '(eneg, s') :=
            match s' with
            | String "+" t => (false, t)
            | String "-" t => (true, t)
            | _ => (false, s')
            end in
          let '(e, ne, s') := digits s' 0 0 in
          (if eneg then - e else e, 0 <? ne, s')
        else (0, true, s)
    | EmptyString => (0, true, s)
    end in
  if (0 <? ni + nf) && ok && String.eqb s EmptyString then
    match nearest neg mant (exp - nf) with
    | S754_infinity _ | S754_nan => None
    | f => Some f
    end
  else None.

(** The number of decimal digits of [n]; none for zero. *)
Fixpoint ndigits (fuel : nat) (n : Z) : Z :=
  match fuel with
  | O => 0
  | S fuel' => if n <=? 0 then 0 else 1 + ndigits fuel' (n / 10)
  end.

(** The shortest decimal that converts back to [m * 2^e]
    ([roundShortest]): the digits as a number, and the power of ten that
    multiplies it.  [lower] and [upper] are the halfway points to the
    float64 before and after, in units of [2^(e-2)]; they belong to the
    interval when [m] is even.  At each decimal position, from the first
    digit of [upper] down, the value cut at that position and the cut
    plus one are tried; when both are inside the interval the nearer one
    is taken. *)
Section shortest.
Variable m : positive.
Variable e : Z.

Definition middle : Z := 4 * Zpos m.
Definition upper : Z := 4 * Zpos m + 2.
Definition lower : Z :=
  if (Zpos m =? 2 ^ (prec - 1)) && (emin prec emax <? e) then 4 * Zpos m - 1
  else 4 * Zpos m - 2.
Definition inclusive : bool := Z.even (Zpos m).

(** [x * 2^(e-2)] is [x * num j / den j] units of [10^j]. *)
Definition num (j : Z) : Z := 2 ^ Z.max (e - 2) 0 * 10 ^ Z.max (- j) 0.
Definition den (j : Z) : Z := 2 ^ Z.max (2 - e) 0 * 10 ^ Z.max j 0.

Definition okdown (j t : Z) : bool :=
  (lower * num j <? t * den j) || inclusive && (lower * num j =? t * den j).

Definition okup (j t : Z) : bool :=
  ((t + 1) * den j <? upper * num j)
  || inclusive && ((t + 1) * den j =? upper * num j).

(** Rounding to the nearest, a halfway case to the even digit. *)
Definition shouldRoundUp (j t : Z) : bool :=
  match 2 * ((middle * num j) mod den j) ?= den j with
  | Lt => false
  | Gt => true
  | Eq => Z.odd t
  end.

Fixpoint scan (fuel : nat) (j : Z) : Z * Z :=
  let t := (middle * num j) / den j in
  match fuel with
  | O => (t, j)
  | S fuel' =>
      match okdown j t, okup j t with
      | true, true => (if shouldRoundUp j t then t + 1 else t, j)
      | true, false => (t, j)
      | false, true => (t + 1, j)
      | false, false => scan fuel' (j - 1)
      end
  end.

Definition roundShortest : Z * Z :=
  let top :=
    ndigits (Z.to_nat (Z.log2 upper + Z.max (e - 2) 0 + 1)) (upper * num 0 / den 0) in
  scan (Z.to_nat (top + Z.max (2 - e) 0)) (top - 1).

End shortest.

(** The digits of [n], first digit first. *)
Fixpoint decimal (fuel : nat) (n : Z) (acc : string) : string :=
  match fuel with
  | O => acc
  | S fuel' =>
      if n <=? 0 then acc
      else decimal fuel' (n / 10) (String (ascii_of_N (48 + Z.to_N (n mod 10))) acc)
  end.

Definition itoa (n : Z) : string :=
  if n <=? 0 then "0" else decimal (Z.to_nat (Z.log2 n + 1)) n EmptyString.

Fixpoint zeros (n : nat) : string :=
  match n with
  | O => EmptyString
  | S n' => String "0" (zeros n')
  end.

(** Zeros at the end of the digits go into the power of ten. *)
Fixpoint trim (fuel : nat) (d j : Z) : Z * Z :=
  match fuel with
  | O => (d, j)
  | S fuel' =>
      if (0 <? d) && (d mod 10 =? 0) then trim fuel' (d / 10) (j + 1) else (d, j)
  end.

(** [%e] with the shortest digits, [d.ddde±dd]: [ds] are the digits and
    the value is [0.ds * 10^dp]. *)
Definition fmtE (ds : string) (dp : Z) : string :=
  let exp := dp - 1 in
  let mant :=
    match ds with
    | String d EmptyString => String d EmptyString
    | String d rest => String d (String "." rest)
    | EmptyString => "0"
    end in
  mant +:+ "e" +:+ (if exp <? 0 then "-" else "+")
       +:+ (if Z.abs exp <? 10 then "0" else EmptyString) +:+ itoa (Z.abs exp).

(** [%f] with the shortest digits. *)
Definition fmtF (ds : string) (dp : Z) : string :=
  let nd := Z.of_nat (String.length ds) in
  if dp <=? 0 then "0." +:+ zeros (Z.to_nat (- dp)) +:+ ds
  else if nd <=? dp then ds +:+ zeros (Z.to_nat (dp - nd))
  else substring 0 (Z.to_nat dp) ds +:+ "."
         +:+ substring (Z.to_nat dp) (Z.to_nat (nd - dp)) ds.

(** [strconv.FormatFloat(f, fmt, -1, 64)] for [fmt] one of ['e'] and
    ['f']. *)
Definition FormatFloat (f : float64) (fmt : ascii) : string :=
  match f with
  | S754_zero s =>
      (if s then "-" else EmptyString) +:+ (if (fmt =? "e")%char then "0e+00" else "0")
  | S754_infinity s => if s then "-Inf" else "+Inf"
  | S754_nan => "NaN"
  | S754_finite s m e =>
      let '(d, j) := roundShortest m e in
      let '(d, j) := trim (Z.to_nat (Z.log2 d + 1)) d j in
      let ds := itoa d in
      let dp := Z.of_nat (String.length ds) + j in
      (if s then "-" else EmptyString)
        +:+ (if (fmt =? "e")%char then fmtE ds dp else fmtF ds dp)
  end.

End strconv.

(** ** encoding/json: Marshal

    The encoder for the values [Decode] produces: object members in the
    order of their keys, no space, strings with the escapes of the
    library ([<], [>] and [&] included), numbers in the shortest form
    that converts back. *)

Module encode.
Import bytes json strconv.

Definition hex (n : N) : ascii :=
  ascii_of_N (if (n <? 10)%N then 48 + n else 87 + n)%N.

(** [htmlSafeSet] *)
Definition htmlSafe (b : ascii) : bool :=
  in_range 32 127 b
  && negb ((b =? quote)%char || (b =? backslash)%char
           || (b =? "<")%char || (b =? ">")%char || (b =? "&")%char).

(** A byte below 128 outside [htmlSafeSet]: the control bytes other than
    newline, return and tab are written with four hexadecimal digits
    (backspace and form feed too, as the library did before Go 1.22). *)
Definition escaped (b : ascii) : string :=
  if (b =? backslash)%char || (b =? quote)%char then String backslash (String b EmptyString)
  else if (b =? "010")%char then String backslash "n"
  else if (b =? "013")%char then String backslash "r"
  else if (b =? "009")%char then String backslash "t"
  else String backslash "u00" +:+ String (hex (code b / 16)) (String (hex (code b mod 16)) EmptyString).

(** The escape written for a byte that is not part of well-formed UTF-8. *)
Definition badbyte : string := String backslash "ufffd".

(** The bytes between the quotes: a byte that is not part of well-formed
    UTF-8 is written as the escape of U+FFFD, and U+2028 and U+2029 are escaped. *)
Fixpoint appendString (s : string) : string :=
  match s with
  | EmptyString => EmptyString
  | String b rest =>
      if (code b <? 128)%N then
        if htmlSafe b then String b (appendString rest)
        else escaped b +:+ appendString rest
      else
        match rest with
        | String c1 rest1 =>
            if utf8.seq2 b c1 then String b (String c1 (appendString rest1))
            else
              match rest1 with
              | String c2 rest2 =>
                  if utf8.seq3 b c1 c2 then
                    if (code b =? 226)%N && (code c1 =? 128)%N
                       && ((code c2 =? 168)%N || (code c2 =? 169)%N)
                    then String backslash "u202" +:+ String (hex (code c2 mod 16)) (appendString rest2)
                    else String b (String c1 (String c2 (appendString rest2)))
                  else
                    match rest2 with
                    | String c3 rest3 =>
                        if utf8.seq4 b c1 c2 c3 then
                          String b (String c1 (String c2 (String c3 (appendString rest3))))
                        else badbyte +:+ appendString rest
                    | _ => badbyte +:+ appendString rest
                    end
              | _ => badbyte +:+ appendString rest
              end
        | _ => badbyte +:+ appendString rest
        end
  end.

Definition quoted (s : string) : string :=
  String quote (appendString s +:+ String quote EmptyString).

(** [e-09] becomes [e-9]. *)
Definition cleanup (b : string) : string :=
  match rev (list_ascii_of_string b) with
  | d :: "0"%char :: "-"%char :: "e"%char :: r =>
      string_of_list_ascii (rev (d :: "-"%char :: "e"%char :: r))
  | _ => b
  end.

(** [floatEncoder]: infinities and NaN are refused; the exponent form
    is used below [1e-6] and from [1e21] on. *)
Definition number (f : float64) : error + string :=
  match f with
  | S754_infinity _ | S754_nan => inl (UnsupportedValueError (FormatFloat f "g"))
  | S754_zero _ => inr (FormatFloat f "f")
  | S754_finite _ _ _ =>
      if SFltb (SFabs f) (nearest false 1 (-6)) || SFleb (nearest false 1 21) (SFabs f)
      then inr (cleanup (FormatFloat f "e"))
      else inr (FormatFloat f "f")
  end.

Definition join (sep : string) (l : list string) : string :=
  match l with
  | [] => EmptyString
  | x :: l' => foldl (λ acc y, acc +:+ sep +:+ y) x l'
  end.

(** The encodings of the elements, or the first error. *)
Fixpoint elements (l : list (error + string)) : error + list string :=
  match l with
  | [] => inr []
  | inl err :: _ => inl err
  | inr s :: l' =>
      match elements l' with
      | inl err => inl err
      | inr ss => inr (s :: ss)
      end
  end.

Fixpoint members (l : list (string * (error + string))) : error + list string :=
  match l with
  | [] => inr []
  | (_, inl err) :: _ => inl err
  | (k, inr s) :: l' =>
      match members l' with
      | inl err => inl err
      | inr ss => inr ((quoted k +:+ ":" +:+ s) :: ss)
      end
  end.

Definition key_le (x y : string * (error + string)) : Prop := String.leb x.1 y.1 = true.

#[local] Instance key_le_dec x y : Decision (key_le x y).
Proof. unfold key_le. apply _. Defined.

Fixpoint encode (v : value float64) : error + string :=
  match v with
  | VNil => inr "null"
  | VBool b => inr (if b then "true" else "false")
  | VFloat64 f => number f
  | VString s => inr (quoted s)
  | VSlice l =>
      match elements (map encode l) with
      | inl err => inl err
      | inr ss => inr ("[" +:+ join "," ss +:+ "]")
      end
  | VMap m =>
      match members (merge_sort key_le (map_to_list (encode <$> m))) with
      | inl err => inl err
      | inr ss => inr ("{" +:+ join "," ss +:+ "}")
      end
  end.

(** [json.Marshal] *)
Definition Marshal (v : value float64) : error + string := encode v.

End encode.

(** ** The program with the library's numbers and encoder, and inputs
    for it *)

Module golang.
Import bytes json http prism.

Definition float64 : Type := strconv.float64.
Definition ParseFloat : string → option float64 := strconv.ParseFloat.
Definition Marshal : value float64 → error + string := encode.Marshal.

Definition Decode := Decode float64 ParseFloat.
Definition handler := handler float64 ParseFloat Marshal example.Error.
Definition ModifyResponse := ModifyResponse float64 ParseFloat Marshal.
Definition exchange := exchange float64 ParseFloat Marshal example.Error.

(** What the conversions make of a literal. *)
Definition reformat (lit : string) : option (error + string) :=
  match ParseFloat lit with
  | Some f => Some (encode.number f)
  | None => None
  end.

(** An integer beyond [2^53], in a request and in a response. *)
Definition large_id : string := example.js "{'id':9007199254740993}".

Definition large_session : string :=
  example.js "{'value':{'capabilities':{},'sessionId':9007199254740993}}".

(** What [Client.Do] returns when the redirect policy stops: the last
    response together with a [*url.Error]. *)
Definition redirected : DoResult :=
  Do (Some 302) (Some (UrlError (OtherCause "stopped after 10 redirects"))).

End golang.

(** * The request side *)

Section inbound.
Import bytes json http prism doc.

Variable float64 : Type.
Variable ParseFloat : string → option float64.
Variable Marshal : value float64 → error + string.
Variable Error : error → string.

Local Abbreviation object := (gmap string (value float64)).
Local Abbreviation handler := (handler float64 ParseFloat Marshal Error).
Local Abbreviation forward := (forward float64 Marshal Error).
Local Abbreviation exchange := (exchange float64 ParseFloat Marshal Error).
Local Abbreviation Decode := (Decode float64 ParseFloat).
Local Abbreviation strip := (strip float64).
Local Abbreviation strip_match := (strip_match float64).

Lemma strip_match_lookup (m : object) (match_ k : string) :
  strip_match m match_ !! k =
    if decide (k = match_)
    then on_object (λ o, delete "browserVersion" (delete "browserName" o)) (m !! match_)
    else m !! k.
Proof.
  unfold prism.strip_match, index, assert_ok, on_object.
  destruct (m !! match_) as [[]|] eqn:Hm; simpl;
    case_decide; simplify_map_eq; done.
Qed.

Lemma strip_w3c_lookup (m : object) (k : string) :
  strip_match (strip_match m "alwaysMatch") "firstMatch" !! k =
    if decide (k = "alwaysMatch" ∨ k = "firstMatch")
    then on_object (λ o, delete "browserVersion" (delete "browserName" o)) (m !! k)
    else m !! k.
Proof.
  rewrite !strip_match_lookup.
  repeat case_decide; subst; try done; tauto.
Qed.

Lemma strip_lookup (caps : object) :
  ∃ caps', strip (Some caps) = Some caps' ∧
    ∀ k, caps' !! k =
      if decide (k = "desiredCapabilities")
      then on_object (λ o, delete "version" (delete "browserName" o)) (caps !! k)
      else if decide (k = "capabilities")
      then on_object (λ c, strip_match (strip_match c "alwaysMatch") "firstMatch")
             (caps !! k)
      else caps !! k.
Proof.
  unfold prism.strip, index_var, index, assert_ok, updated, on_object.
  destruct (caps !! "desiredCapabilities") as [[]|] eqn:Hd; simpl.
  all: try rewrite lookup_insert_ne by done.
  all: destruct (caps !! "capabilities") as [[]|] eqn:Hc; simpl.
  all: eexists; (split; [reflexivity|]); intros k.
  all: repeat case_decide; simplify_map_eq; try done.
Qed.

(** A decoded object goes through [strip] and on to the proxy. *)
Lemma handler_object (r : Request.t) (caps : object) :
  Decode (Request.Body r) = inr (Some caps) →
  ∃ caps', strip (Some caps) = Some caps' ∧ handler r = forward r (VMap caps').
Proof.
  intros Hdec. destruct (strip_lookup caps) as (caps' & Hs & _).
  exists caps'. split; [done|].
  unfold prism.handler. by rewrite Hdec, Hs.
Qed.

Lemma delete2_absent (k1 k2 key : string) (o : object) :
  key ∈ [k1; k2] → delete k2 (delete k1 o) !! key = None.
Proof.
  intros Hin. apply lookup_delete_None.
  destruct (decide (key = k2)) as [->|]; [by left|right].
  apply lookup_delete_None. left.
  rewrite !elem_of_cons, elem_of_nil in Hin. intuition congruence.
Qed.

Lemma delete2_other (k1 k2 key : string) (o : object) :
  key ∉ [k1; k2] → delete k2 (delete k1 o) !! key = o !! key.
Proof.
  intros Hin. rewrite !elem_of_cons, elem_of_nil in Hin.
  rewrite !lookup_delete_ne; [done| |]; intuition congruence.
Qed.

Lemma delete2_id (k1 k2 : string) (o : object) :
  (∀ key, key ∈ [k1; k2] → o !! key = None) → delete k2 (delete k1 o) = o.
Proof.
  intros Habs. apply map_eq. intros key.
  destruct (decide (key ∈ [k1; k2])) as [Hin|Hin].
  - by rewrite delete2_absent, Habs.
  - by rewrite delete2_other.
Qed.

(** The request that leaves for the target once the document has been
    encoded: the method and the path of the inbound request, the encoding
    as body, its length as [ContentLength]; it is the one request of the
    exchange. *)
Lemma forward_body (r : Request.t) (doc : value float64) (body : string) :
  Marshal doc = inr body →
  forward r doc =
    ServeHTTP (Request.mk (Request.Method r) (Request.Path r) body (len body)).
Proof. intros Hm. unfold prism.forward. by rewrite Hm. Qed.

Lemma exchange_sends RoundTrip (r outreq : Request.t) :
  handler r = ServeHTTP outreq → (exchange RoundTrip r).1 = [outreq].
Proof.
  intros Hh. unfold prism.exchange. rewrite Hh.
  destruct (RoundTrip outreq) as [res|]; [|done].
  by destruct (ModifyResponse float64 ParseFloat Marshal res) as [[|]|].
Qed.

Lemma forwarded (r : Request.t) (doc : value float64) :
  handler r = forward r doc →
  ∀ body, Marshal doc = inr body →
    handler r = ServeHTTP (Request.mk (Request.Method r) (Request.Path r) body (len body))
    ∧ ∀ RoundTrip,
        (exchange RoundTrip r).1 =
          [Request.mk (Request.Method r) (Request.Path r) body (len body)].
Proof.
  intros Hh body Hm. rewrite (forward_body r doc body Hm) in Hh.
  split; [done|]. intros RoundTrip. by apply exchange_sends.
Qed.

(** C1. When the body decodes to an object, the document that is encoded
    and forwarded has no [browserName] and no [version] in the object
    under [desiredCapabilities], and no [browserName] and no
    [browserVersion] in the objects under [capabilities.alwaysMatch] and
    [capabilities.firstMatch]; a document that had none of them is
    forwarded as it is, and no missing key makes the handler fail.  The
    body of the one request that goes to the target is the encoding of
    that document, and its [ContentLength] the length of the encoding. *)
Theorem inbound_identity_deleted (r : Request.t) (caps : object) :
  Decode (Request.Body r) = inr (Some caps) →
  ∃ caps', handler r = forward r (VMap caps')
    ∧ no_identity caps'
    ∧ (no_identity caps → caps' = caps)
    ∧ ∀ body, Marshal (VMap caps') = inr body →
        handler r =
          ServeHTTP (Request.mk (Request.Method r) (Request.Path r) body (len body))
        ∧ ∀ RoundTrip,
            (exchange RoundTrip r).1 =
              [Request.mk (Request.Method r) (Request.Path r) body (len body)].
Proof.
  intros Hdec.
  destruct (handler_object r caps Hdec) as (caps' & Hs & Hh).
  destruct (strip_lookup caps) as (caps'' & Hs' & Hl).
  assert (caps'' = caps') as -> by congruence. clear Hs'.
  exists caps'. split; [done|]. split; [split|split; [|by apply forwarded]].
  - intros o Ho key Hkey. rewrite Hl in Ho.
    rewrite decide_True in Ho by done.
    destruct (caps !! "desiredCapabilities") as [[]|]; simplify_eq/=.
    by apply delete2_absent.
  - intros c Hc. rewrite Hl in Hc.
    rewrite decide_False, decide_True in Hc by done.
    destruct (caps !! "capabilities") as [[| | | | |c0]|];
      cbn [on_object] in Hc; try discriminate. injection Hc as <-.
    split; intros o Ho key Hkey; rewrite strip_w3c_lookup in Ho;
      (rewrite decide_True in Ho by tauto);
      [destruct (c0 !! "alwaysMatch") as [[]|]|destruct (c0 !! "firstMatch") as [[]|]];
      simplify_eq/=; by apply delete2_absent.
  - intros [Hd Hc]. apply map_eq. intros k. rewrite Hl.
    repeat case_decide; subst; [| |done].
    + destruct (caps !! "desiredCapabilities") as [[| | | | |o]|] eqn:Ho; simpl; try done.
      do 2 f_equal. apply delete2_id. by apply Hd.
    + destruct (caps !! "capabilities") as [[| | | | |c]|] eqn:Hcc; simpl; try done.
      do 2 f_equal. destruct (Hc c eq_refl) as [Ha Hf].
      apply map_eq. intros k. rewrite strip_w3c_lookup.
      case_decide as Hk; [|done].
      destruct (c !! k) as [[| | | | |o]|] eqn:Ho; simpl; try done.
      do 2 f_equal. apply delete2_id.
      destruct Hk as [->| ->]; [by apply Ha|by apply Hf].
Qed.

(** C3, as amended.  When the body decodes to an object, the document
    that is encoded and forwarded has every key of the decoded document
    other than the deleted ones, with the value it was decoded to (a
    number: the [float64] it converted to), at each of the three levels
    the handler visits: the top level outside [desiredCapabilities] and
    [capabilities]; the object under [desiredCapabilities] outside
    [browserName] and [version]; the object under [capabilities] outside
    the two match keys, and the objects under those outside [browserName]
    and [browserVersion].  Whatever is under one of these keys and is not
    an object stays as it is.  A document without [desiredCapabilities]
    and [capabilities] is forwarded as it was decoded.  The body of the
    one request that goes to the target is the encoding of that document,
    and its [ContentLength] the length of the encoding. *)
Theorem inbound_rest_preserved (r : Request.t) (caps : object) :
  Decode (Request.Body r) = inr (Some caps) →
  ∃ caps', handler r = forward r (VMap caps')
    ∧ same_except ["desiredCapabilities"; "capabilities"] caps caps'
    ∧ at_key "desiredCapabilities" (same_except ["browserName"; "version"]) caps caps'
    ∧ at_key "capabilities"
        (λ c c', same_except ["alwaysMatch"; "firstMatch"] c c'
           ∧ at_key "alwaysMatch" (same_except ["browserName"; "browserVersion"]) c c'
           ∧ at_key "firstMatch" (same_except ["browserName"; "browserVersion"]) c c')
        caps caps'
    ∧ (caps !! "desiredCapabilities" = None → caps !! "capabilities" = None →
       caps' = caps)
    ∧ ∀ body, Marshal (VMap caps') = inr body →
        handler r =
          ServeHTTP (Request.mk (Request.Method r) (Request.Path r) body (len body))
        ∧ ∀ RoundTrip,
            (exchange RoundTrip r).1 =
              [Request.mk (Request.Method r) (Request.Path r) body (len body)].
Proof.
  intros Hdec.
  destruct (handler_object r caps Hdec) as (caps' & Hs & Hh).
  destruct (strip_lookup caps) as (caps'' & Hs' & Hl).
  assert (caps'' = caps') as -> by congruence. clear Hs'.
  exists caps'. split; [done|].
  split; [|split; [|split; [|split; [|by apply forwarded]]]].
  - intros k Hk. rewrite !elem_of_cons, elem_of_nil in Hk. rewrite Hl.
    repeat case_decide; subst; tauto.
  - unfold at_key. rewrite Hl, decide_True by done.
    destruct (caps !! "desiredCapabilities") as [[| | | | |o]|]; simpl; try done.
    eexists; split; [done|]. intros k Hk. by apply delete2_other.
  - unfold at_key at 1. rewrite Hl, decide_False, decide_True by done.
    destruct (caps !! "capabilities") as [[| | | | |c]|]; simpl; try done.
    eexists; split; [done|]. split; [|split].
    + intros k Hk. rewrite !elem_of_cons, elem_of_nil in Hk.
      rewrite strip_w3c_lookup. case_decide; tauto.
    + unfold at_key. rewrite strip_w3c_lookup, decide_True by tauto.
      destruct (c !! "alwaysMatch") as [[| | | | |o]|]; simpl; try done.
      eexists; split; [done|]. intros k Hk. by apply delete2_other.
    + unfold at_key. rewrite strip_w3c_lookup, decide_True by tauto.
      destruct (c !! "firstMatch") as [[| | | | |o]|]; simpl; try done.
      eexists; split; [done|]. intros k Hk. by apply delete2_other.
  - intros Hd Hc. apply map_eq. intros k. rewrite Hl.
    repeat case_decide; subst; [by rewrite Hd|by rewrite Hc|done].
Qed.

(** C8. When [capabilities.firstMatch] is an array, the forwarded document
    has the same array under [capabilities.firstMatch]: nothing inside it
    is deleted. *)
Theorem firstMatch_array_untouched
    (r : Request.t) (caps c : object) (l : list (value float64)) :
  Decode (Request.Body r) = inr (Some caps) →
  caps !! "capabilities" = Some (VMap c) →
  c !! "firstMatch" = Some (VSlice l) →
  ∃ caps' c', handler r = forward r (VMap caps')
    ∧ caps' !! "capabilities" = Some (VMap c')
    ∧ c' !! "firstMatch" = Some (VSlice l).
Proof.
  intros Hdec Hc Hf.
  destruct (handler_object r caps Hdec) as (caps' & Hs & Hh).
  destruct (strip_lookup caps) as (caps'' & Hs' & Hl).
  assert (caps'' = caps') as -> by congruence. clear Hs'.
  exists caps', (strip_match (strip_match c "alwaysMatch") "firstMatch").
  split; [done|]. split.
  - by rewrite Hl, decide_False, decide_True, Hc by done.
  - by rewrite strip_w3c_lookup, decide_True, Hf by tauto.
Qed.

End inbound.

(** * The decoder *)

Section decoding.
Import bytes json doc.

Variable float64 : Type.
Variable ParseFloat : string → option float64.

Local Abbreviation value := (value float64).
Local Abbreviation scanner := (scanner float64).
Local Abbreviation scan_step := (scan_step float64 ParseFloat).
Local Abbreviation scanWhile := (scanWhile float64 ParseFloat).
Local Abbreviation readValue := (readValue float64 ParseFloat).
Local Abbreviation Decode := (Decode float64 ParseFloat).

Lemma last_cons_Some_ne {A} (x : A) (l : list A) : last (x :: l) ≠ None.
Proof.
  revert x. induction l as [|y l IH]; intros x; [done|]. apply (IH y).
Qed.

Ltac split_cases :=
  repeat match goal with
    | |- context [if ?b then _ else _] => destruct b eqn:?
    | |- context [match ?x with _ => _ end] => destruct x eqn:?
    end.

(** One byte keeps the promise. *)
Lemma scan_step_delivers Q (s : scanner) (c : ascii) :
  delivers Q s → delivered Q (scan_step s c).
Proof.
  destruct s as [st [|ps [|ps' rest]] sv]; unfold delivers; cbn [stack step savedError last].
  - destruct st; try done; intros HQ;
      unfold json.scan_step, do_stateBeginValue, do_stateBeginString, do_state0,
        do_stateESign, endNumber, do_stateEndValue, goto, pushParseState, popParseState;
      cbn [stack step savedError];
      split_cases; cbn [delivered]; unfold delivers; cbn [stack step savedError last];
      try done; try (destruct HQ; done).
  - intros HQ; destruct st;
      unfold json.scan_step, do_stateBeginValue, do_stateBeginString, do_state0,
        do_stateESign, endNumber, do_stateEndValue, goto, pushParseState, popParseState;
      cbn [stack step savedError];
      split_cases; cbn [delivered]; unfold delivers; cbn [stack step savedError last];
      try done; subst; try done.
  - intros HQ; destruct st;
      unfold json.scan_step, do_stateBeginValue, do_stateBeginString, do_state0,
        do_stateESign, endNumber, do_stateEndValue, goto, pushParseState, popParseState;
      cbn [stack step savedError];
      split_cases; cbn [delivered]; unfold delivers; cbn [stack step savedError last];
      try done; subst; try done;
      (destruct (last (ps' :: rest)) as [[]|] eqn:Hlast;
         [done..|by apply last_cons_Some_ne in Hlast]).
Qed.

Lemma scanWhile_delivers Q (buf : string) :
  ∀ (s : scanner) (nonSpace : bool) v saved rest,
    delivers Q s → scanWhile s buf nonSpace = inr (v, saved, rest) → Q v saved.
Proof.
  induction buf as [|c buf IH]; intros s nonSpace v saved rest Hs; cbn [json.scanWhile].
  - pose proof (scan_step_delivers Q s " " Hs) as Hd.
    destruct (scan_step s " "); [done| |done]. intros [= <- <- _]. exact Hd.
  - pose proof (scan_step_delivers Q s c Hs) as Hd.
    destruct (scan_step s c) as [s'| |]; [|by intros [= <- <- _]|done].
    by apply IH.
Qed.

Lemma scanWhile_reset_begins (buf : string) :
  ∀ (nonSpace : bool) v saved rest,
    scanWhile (reset float64) buf nonSpace = inr (v, saved, rest) →
    ∃ c, first_nonspace buf = Some c ∧ begins c v saved.
Proof.
  induction buf as [|c buf IH]; intros nonSpace v saved rest; [done|].
  cbn [json.scanWhile first_nonspace].
  unfold json.scan_step at 1. cbn [step reset]. unfold do_stateBeginValue.
  destruct (isSpace c) eqn:Hsp; [by apply IH|].
  intros Hrun. exists c. split; [done|]. revert Hrun.
  unfold begins, goto, pushParseState. cbn [stack savedError reset length].
  repeat match goal with
    | |- context [if (c =? ?x)%char then _ else _] => destruct (c =? x)%char eqn:?
    end; cbn [orb Z.of_nat Z.leb]; try done.
  all: repeat match goal with
    | |- context [if ?b then _ else _] => destruct b eqn:?
    end; try done.
  all: intros Hrun; pattern v, saved;
    match goal with
    | |- ?Q ?a ?b => apply (λ H, scanWhile_delivers Q _ _ _ a b _ H Hrun)
    end; unfold delivers; cbn; eauto;
    (split; [intros; left; eauto|intros; right; done]).
Qed.

Lemma scanWhile_reset_space (buf : string) :
  ∀ nonSpace : bool,
    first_nonspace buf = None →
    scanWhile (reset float64) buf nonSpace = inl (if nonSpace then ErrUnexpectedEOF else EOF).
Proof.
  induction buf as [|c buf IH]; intros nonSpace; cbn [json.scanWhile first_nonspace].
  - done.
  - unfold json.scan_step at 1. cbn [step reset]. unfold do_stateBeginValue.
    destruct (isSpace c) eqn:Hsp; [|done]. intros Hbuf.
    rewrite IH by done. by destruct nonSpace.
Qed.

(** A body without a value is turned down with [io.EOF]. *)
Lemma Decode_space (body : string) :
  first_nonspace body = None → Decode body = inl EOF.
Proof.
  intros Hb. unfold json.Decode, json.readValue.
  by rewrite scanWhile_reset_space.
Qed.

(** [Decode] succeeds on nothing but an object, which it returns, and
    [null], which leaves the map nil. *)
Lemma Decode_inr_begins (body : string) (caps : option (gmap string value)) :
  Decode body = inr caps →
  (first_nonspace body = Some "{"%char ∧ is_Some caps)
  ∨ (first_nonspace body = Some "n"%char ∧ caps = None).
Proof.
  unfold json.Decode, json.readValue.
  destruct (scanWhile _ body false) as [|[[v saved] rest]] eqn:Hrun; [done|].
  apply scanWhile_reset_begins in Hrun as (c & Hc & Hb). rewrite Hc.
  intros Hdec.
  assert (saved = None
          ∧ ((∃ m, v = VMap m ∧ caps = Some m) ∨ (v = VNil ∧ caps = None)))
    as [-> Hv].
  { destruct saved; [by destruct v|]. split; [done|].
    destruct v; simplify_eq; eauto. }
  clear Hdec. unfold begins in Hb.
  repeat match type of Hb with
    | (if ?b then _ else _) => destruct b eqn:?
    end.
  all: try (destruct Hb as [[? ->]|[-> ?]]; destruct Hv as [(? & ? & ?)|[? ?]]; done).
  all: try (destruct Hb as [? ->]; destruct Hv as [(? & ? & ->)|[? ?]]; try done).
  - left. split; [|done]. f_equal. by apply Ascii.eqb_eq.
  - destruct Hb as [-> _]. destruct Hv as [(? & ? & ?)|[_ ->]]; [done|].
    right. split; [|done]. f_equal. by apply Ascii.eqb_eq.
Qed.

End decoding.

(** * Bodies the handler turns down *)

Section rejection.
Import bytes json http prism doc.

Variable float64 : Type.
Variable ParseFloat : string → option float64.
Variable Marshal : value float64 → error + string.
Variable Error : error → string.

Local Abbreviation handler := (handler float64 ParseFloat Marshal Error).
Local Abbreviation forward := (forward float64 Marshal Error).
Local Abbreviation exchange := (exchange float64 ParseFloat Marshal Error).
Local Abbreviation Decode := (Decode float64 ParseFloat).
Local Abbreviation readValue := (readValue float64 ParseFloat).

Local Abbreviation BadRequest := (BadRequest Error).

Lemma exchange_Decode_error RoundTrip (r : Request.t) (err : error) :
  Decode (Request.Body r) = inl err → exchange RoundTrip r = ([], BadRequest err).
Proof.
  intros Hdec. unfold prism.exchange, prism.handler. by rewrite Hdec.
Qed.

(** Whatever follows the first value of the body is not read: the
    handler goes by the value alone. *)
Lemma handler_readValue (r r' : Request.t) v saved rest rest' :
  readValue (Request.Body r) = inr (v, saved, rest) →
  readValue (Request.Body r') = inr (v, saved, rest') →
  Request.Method r = Request.Method r' →
  Request.Path r = Request.Path r' →
  handler r = handler r'.
Proof.
  intros Hr Hr' Hm Hp. unfold prism.handler, json.Decode, prism.forward.
  by rewrite Hr, Hr', Hm, Hp.
Qed.

(** Bytes after the first value do not make the handler turn the body
    down, whatever the encoder and the number conversion are. *)
Lemma trailing_bytes_forwarded (r : Request.t) :
  Request.Body r = "{}x" →
  Valid ParseFloat (Request.Body r) = false ∧ handler r = forward r (VMap ∅).
Proof.
  intros Hb. unfold prism.handler. rewrite Hb. split; reflexivity.
Qed.

(** C5, as amended.  When the body does not begin with a complete JSON
    value (it is empty, ends inside its first value, or a byte of that
    value is out of place) the client gets status 400 with the text of
    the decoding error, and no request goes to the target. *)
Theorem malformed_body_rejected RoundTrip (r : Request.t) (err : error) :
  readValue (Request.Body r) = inl err →
  exchange RoundTrip r = ([], BadRequest err).
Proof.
  intros Hrv. apply exchange_Decode_error. unfold json.Decode. by rewrite Hrv.
Qed.

(** C10, as amended.  A body with no value at all, and a body whose first
    byte other than space opens anything but an object or the word [null]
    - an array, a string, a number, a boolean - gets status 400 and
    nothing goes to the target; so a request reaches the proxy only when
    the first value of its body is an object or [null], and [null] does
    reach it, as the encoding of a nil map. *)
Theorem non_object_body_rejected RoundTrip (r : Request.t) :
  (first_nonspace (Request.Body r) = None →
     exchange RoundTrip r = ([], BadRequest EOF))
  ∧ (∀ c, first_nonspace (Request.Body r) = Some c →
       c ≠ "{"%char → c ≠ "n"%char →
       ∃ err, exchange RoundTrip r = ([], BadRequest err))
  ∧ (∀ outreq, handler r = ServeHTTP outreq →
       (first_nonspace (Request.Body r) = Some "{"%char
        ∧ ∃ caps, Decode (Request.Body r) = inr (Some caps))
       ∨ (first_nonspace (Request.Body r) = Some "n"%char
          ∧ Decode (Request.Body r) = inr None))
  ∧ (Request.Body r = "null" → handler r = forward r VNil).
Proof.
  repeat split.
  - intros Hb. apply exchange_Decode_error. by apply Decode_space.
  - intros c Hc Hobj Hnull.
    destruct (Decode (Request.Body r)) as [err|caps] eqn:Hdec.
    + exists err. by apply exchange_Decode_error.
    + apply Decode_inr_begins in Hdec as [[Hb _]|[Hb _]]; congruence.
  - intros outreq Hh. unfold prism.handler in Hh.
    destruct (Decode (Request.Body r)) as [err|caps] eqn:Hdec; [done|].
    pose proof Hdec as Hdec'.
    apply Decode_inr_begins in Hdec as [[Hb [m ->]]|[Hb ->]]; eauto.
  - intros Hb. unfold prism.handler. by rewrite Hb.
Qed.

End rejection.

(** * The response side *)

Section outbound.
Import bytes json http prism doc.

Variable float64 : Type.
Variable ParseFloat : string → option float64.
Variable Marshal : value float64 → error + string.
Variable Error : error → string.

Local Abbreviation object := (gmap string (value float64)).
Local Abbreviation handler := (handler float64 ParseFloat Marshal Error).
Local Abbreviation exchange := (exchange float64 ParseFloat Marshal Error).
Local Abbreviation Decode := (Decode float64 ParseFloat).
Local Abbreviation inject := (inject float64).
Local Abbreviation reencode := (reencode float64 Marshal).
Local Abbreviation ModifyResponse := (ModifyResponse float64 ParseFloat Marshal).

Lemma ModifyResponse_StatusOK (resp : Response.t) :
  Response.StatusCode resp = StatusOK →
  ModifyResponse resp =
    match Decode (Response.Body resp) with
    | inl err => Returns (inl (DecodeJsonResponse err))
    | inr values =>
        match inject values with
        | Panics msg => Panics msg
        | Returns values => reencode resp (of_var float64 values)
        end
    end.
Proof.
  intros Hst. unfold prism.ModifyResponse. by rewrite Hst.
Qed.

Lemma reencode_inr (resp resp' : Response.t) (doc : value float64) :
  reencode resp doc = Returns (inr resp') →
  Marshal doc = inr (Response.Body resp')
  ∧ Response.ContentLength resp' = len (Response.Body resp')
  ∧ Response.Header resp' = Del (Response.Header resp) "Content-Length"
  ∧ Response.StatusCode resp' = Response.StatusCode resp.
Proof.
  unfold prism.reencode. destruct (Marshal doc) as [err|buf]; [done|].
  by intros [= <-].
Qed.

(** What reaches the client once the hook has returned. *)
Lemma exchange_proxied RoundTrip (r outreq : Request.t) (res : Response.t) :
  handler r = ServeHTTP outreq →
  RoundTrip outreq = Some res →
  exchange RoundTrip r =
    ([outreq],
     match ModifyResponse res with
     | Returns (inl _) => Written StatusBadGateway EmptyString
     | Returns (inr res') => Copied res'
     | Panics msg => Aborted msg
     end).
Proof.
  intros Hh Hrt. unfold prism.exchange. rewrite Hh, Hrt.
  by destruct (ModifyResponse res) as [[]|].
Qed.

(** C2, as amended.  For a 200 response whose body decodes to an object
    with an object under [value] and an object under
    [value.capabilities], the document that is encoded has the configured
    name and version under [value.capabilities.browserName] and
    [.browserVersion], whatever was there, and is the decoded one
    everywhere else (a number: the [float64] it converted to); the
    response the hook returns, which is the one the client gets, has the
    encoding as its body, the length of the encoding as its
    [ContentLength], and no [Content-Length] entry in its header, the
    rest of the header and the status staying as they were. *)
Theorem outbound_identity_injected
    (resp : Response.t) (values value capabilities : object) :
  Response.StatusCode resp = StatusOK →
  Decode (Response.Body resp) = inr (Some values) →
  values !! "value" = Some (VMap value) →
  value !! "capabilities" = Some (VMap capabilities) →
  ∃ values' value' capabilities',
    ModifyResponse resp = reencode resp (VMap values')
    ∧ values' !! "value" = Some (VMap value')
    ∧ value' !! "capabilities" = Some (VMap capabilities')
    ∧ capabilities' !! "browserName" = Some (VString browserName)
    ∧ capabilities' !! "browserVersion" = Some (VString browserVersion)
    ∧ same_except ["browserName"; "browserVersion"] capabilities capabilities'
    ∧ same_except ["capabilities"] value value'
    ∧ same_except ["value"] values values'
    ∧ (∀ resp', reencode resp (VMap values') = Returns (inr resp') →
        Marshal (VMap values') = inr (Response.Body resp')
        ∧ Response.ContentLength resp' = len (Response.Body resp')
        ∧ Response.Header resp' !! "Content-Length" = None
        ∧ same_except ["Content-Length"] (Response.Header resp) (Response.Header resp')
        ∧ Response.StatusCode resp' = Response.StatusCode resp)
    ∧ ∀ buf, Marshal (VMap values') = inr buf →
        ModifyResponse resp =
          Returns (inr (Response.mk (Response.StatusCode resp)
                          (Del (Response.Header resp) "Content-Length") buf (len buf)))
        ∧ ∀ RoundTrip r outreq,
            handler r = ServeHTTP outreq →
            RoundTrip outreq = Some resp →
            exchange RoundTrip r =
              ([outreq],
               Copied (Response.mk (Response.StatusCode resp)
                         (Del (Response.Header resp) "Content-Length") buf (len buf))).
Proof.
  intros Hst Hdec Hv Hc.
  assert (ModifyResponse resp =
            reencode resp
              (VMap (<["value" := VMap (<["capabilities" :=
                 VMap (<["browserVersion" := VString browserVersion]>
                         (<["browserName" := VString browserName]> capabilities))]> value)]>
                       values))) as Hmod.
  { rewrite ModifyResponse_StatusOK, Hdec by done.
    unfold prism.inject, index_var, index, assert, assert_ok, updated.
    rewrite Hv. cbn. rewrite Hc. cbn. reflexivity. }
  eexists _, _, _. split; [exact Hmod|].
  split; [by rewrite lookup_insert_eq|].
  split; [by rewrite lookup_insert_eq|].
  split; [by rewrite lookup_insert_ne, lookup_insert_eq|].
  split; [by rewrite lookup_insert_eq|].
  split.
  { intros k Hk. rewrite !elem_of_cons, elem_of_nil in Hk.
    rewrite !lookup_insert_ne; [done| |]; intuition congruence. }
  split.
  { intros k Hk. rewrite !elem_of_cons, elem_of_nil in Hk.
    rewrite lookup_insert_ne; [done|]; intuition congruence. }
  split.
  { intros k Hk. rewrite !elem_of_cons, elem_of_nil in Hk.
    rewrite lookup_insert_ne; [done|]; intuition congruence. }
  split.
  { intros resp' Hre. apply reencode_inr in Hre as (Hm & Hl & Hh & Hs).
    repeat split; [done|done| | |done].
    - rewrite Hh. apply lookup_delete_eq.
    - intros k Hk. rewrite !elem_of_cons, elem_of_nil in Hk.
      rewrite Hh. unfold Del. rewrite lookup_delete_ne; [done|]. intuition congruence. }
  intros buf Hbuf.
  assert (ModifyResponse resp =
            Returns (inr (Response.mk (Response.StatusCode resp)
                            (Del (Response.Header resp) "Content-Length") buf (len buf))))
    as Hret.
  { rewrite Hmod. unfold prism.reencode. by rewrite Hbuf. }
  split; [done|]. intros RoundTrip r outreq Hh Hrt.
  by rewrite (exchange_proxied _ _ _ _ Hh Hrt), Hret.
Qed.

(** The slip on line 123: a [value] that is not an object makes the hook
    panic, and the client gets no response. *)
Lemma value_not_object_panics (resp : Response.t) (values : object) (o : value float64) :
  Response.StatusCode resp = StatusOK →
  Decode (Response.Body resp) = inr (Some values) →
  values !! "value" = Some o →
  (∀ m, o ≠ VMap m) →
  ∃ msg, ModifyResponse resp = Panics msg.
Proof.
  intros Hst Hdec Hv Ho.
  rewrite ModifyResponse_StatusOK, Hdec by done.
  unfold prism.inject, index_var, index, assert. rewrite Hv.
  destruct o; try (eexists; reflexivity). by destruct (Ho m).
Qed.

(** C6. A response whose status is not 200 leaves the hook as it came:
    status, header, body and [ContentLength] are the target's, and that
    response is what the client gets. *)
Theorem other_status_untouched (resp : Response.t) :
  Response.StatusCode resp ≠ StatusOK →
  ModifyResponse resp = Returns (inr resp)
  ∧ ∀ RoundTrip r outreq,
      handler r = ServeHTTP outreq →
      RoundTrip outreq = Some resp →
      exchange RoundTrip r = ([outreq], Copied resp).
Proof.
  intros Hst.
  assert (ModifyResponse resp = Returns (inr resp)) as Hm.
  { unfold prism.ModifyResponse.
    by destruct (Z.eqb_spec (Response.StatusCode resp) StatusOK). }
  split; [done|]. intros RoundTrip r outreq Hh Hrt.
  by rewrite (exchange_proxied _ _ _ _ Hh Hrt), Hm.
Qed.

(** X14. When the body of a 200 response does not decode, or the document
    does not encode again, the hook returns an error (it does not panic)
    and the client gets 502 with an empty body and nothing of the target's
    response. *)
Theorem undecodable_response_bad_gateway (resp : Response.t) :
  Response.StatusCode resp = StatusOK →
  (∃ err, Decode (Response.Body resp) = inl err)
  ∨ (∃ values values' err,
       Decode (Response.Body resp) = inr values
       ∧ inject values = Returns values'
       ∧ Marshal (of_var float64 values') = inl err) →
  (∃ err, ModifyResponse resp = Returns (inl err))
  ∧ ∀ RoundTrip r outreq,
      handler r = ServeHTTP outreq →
      RoundTrip outreq = Some resp →
      exchange RoundTrip r = ([outreq], Written StatusBadGateway EmptyString).
Proof.
  intros Hst Hfail.
  assert (∃ err, ModifyResponse resp = Returns (inl err)) as [e He].
  { rewrite ModifyResponse_StatusOK by done.
    destruct Hfail as [[err ->]|(values & values' & err & -> & -> & Hm)]; [by eexists|].
    unfold prism.reencode. rewrite Hm. by eexists. }
  split; [by exists e|]. intros RoundTrip r outreq Hh Hrt.
  by rewrite (exchange_proxied _ _ _ _ Hh Hrt), He.
Qed.

End outbound.

(** * Waiting for the target *)

Section waiting.
Import http prism.

Variable URL : Type.
Variable NewRequest : string → string + URL.

Local Abbreviation wait := (wait URL NewRequest).
Local Abbreviation wait_turn := (@wait_turn URL).

Lemma wait_transient (target : string) (u : URL) (pre net : list DoResult) :
  NewRequest target = inr u →
  Forall (λ res, transient res = true) pre →
  wait target (pre ++ net)%list =
    ((polls target (length pre) ++ (wait target net).1)%list, (wait target net).2).
Proof.
  intros Hnr Hpre. induction Hpre as [|res pre Hres _ IH].
  - cbn [app length polls]. by destruct (wait target net).
  - cbn [app length polls prism.wait]. rewrite Hnr, IH.
    unfold prism.transient in Hres. unfold prism.wait_turn.
    by destruct (err res) as [[[]|]|].
Qed.

Lemma wait_nil (target : string) (u : URL) :
  NewRequest target = inr u → wait target [] = ([], None).
Proof. intros Hnr. cbn. by rewrite Hnr. Qed.

Lemma wait_Return (target : string) (u : URL) res net r :
  NewRequest target = inr u →
  wait_turn u res = Return r →
  wait target (res :: net) = ([Head target], Some r).
Proof. intros Hnr Ht. cbn. by rewrite Hnr, Ht. Qed.

(** C7, as amended.  [wait] returns the URL at the first probe that [Do]
    answers without an error, whatever the status; a failure whose cause is the
    cancellation or the deadline of the context makes it return that
    error at once, and these are the only failures of the client that
    do; after any other one it pauses 100ms and probes again, for as many
    failures in a row as the network produces. *)
Theorem wait_polls_until_answer (target : string) (u : URL) :
  NewRequest target = inr u →
  (∀ pre res net,
     Forall (λ res, transient res = true) pre →
     err res = None →
     wait target (pre ++ res :: net)%list =
       ((polls target (length pre) ++ [Head target])%list, Some (inr u)))
  ∧ (∀ pre res c net,
       Forall (λ res, transient res = true) pre →
       err res = Some (UrlError c) →
       c = Canceled ∨ c = DeadlineExceeded →
       wait target (pre ++ res :: net)%list =
         ((polls target (length pre) ++ [Head target])%list, Some (inl (ErrDo c))))
  ∧ (∀ res c,
       err res = Some (UrlError c) →
       ((∃ e, wait_turn u res = Return (inl e)) ↔ c = Canceled ∨ c = DeadlineExceeded)
       ∧ (¬ (c = Canceled ∨ c = DeadlineExceeded) →
          wait_turn u res = Continue (100 * Millisecond)))
  ∧ (∀ pre,
       Forall (λ res, transient res = true) pre →
       wait target pre = (polls target (length pre), None)).
Proof.
  intros Hnr. split; [|split; [|split]].
  - intros pre res net Hpre Hres.
    rewrite (wait_transient _ u) by done.
    rewrite (wait_Return _ u _ _ (inr u)); [done..|].
    unfold prism.wait_turn. by rewrite Hres.
  - intros pre res c net Hpre Hres Hc.
    rewrite (wait_transient _ u) by done.
    rewrite (wait_Return _ u _ _ (inl (ErrDo c))); [done..|].
    unfold prism.wait_turn. rewrite Hres. by destruct Hc as [-> | ->].
  - intros res c Hres. unfold prism.wait_turn. rewrite Hres.
    split; [split|].
    + intros [e He]. destruct c; [by left|by right|done].
    + intros [-> | ->]; by eexists.
    + intros Hc. destruct c; [by destruct Hc; left|by destruct Hc; right|done].
  - intros pre Hpre.
    rewrite <- (app_nil_r pre) at 1. rewrite (wait_transient _ u) by done.
    rewrite (wait_nil _ u) by done. cbn. by rewrite app_nil_r.
Qed.

End waiting.

(** * More on the request side *)

Section inbound_more.
Import bytes json http prism doc.

Variable float64 : Type.
Variable ParseFloat : string → option float64.
Variable Marshal : value float64 → error + string.
Variable Error : error → string.

Local Abbreviation object := (gmap string (value float64)).
Local Abbreviation handler := (handler float64 ParseFloat Marshal Error).
Local Abbreviation forward := (forward float64 Marshal Error).
Local Abbreviation exchange := (exchange float64 ParseFloat Marshal Error).
Local Abbreviation Decode := (Decode float64 ParseFloat).
Local Abbreviation readValue := (readValue float64 ParseFloat).
Local Abbreviation scanWhile := (scanWhile float64 ParseFloat).
Local Abbreviation scan_step := (scan_step float64 ParseFloat).
Local Abbreviation strip := (strip float64).
Local Abbreviation strip_match := (strip_match float64).

Lemma on_object_twice (f : object → object) (o : option (value float64)) :
  (∀ m, f (f m) = f m) → on_object f (on_object f o) = on_object f o.
Proof.
  intros Hf. destruct o as [[]|]; simpl; try done. by rewrite Hf.
Qed.

Lemma delete2_twice (k1 k2 : string) (o : object) :
  delete k2 (delete k1 (delete k2 (delete k1 o))) = delete k2 (delete k1 o).
Proof.
  apply (delete2_id float64 (λ _, None) k1 k2).
  intros key Hkey. by apply (delete2_absent float64 (λ _, None)).
Qed.

Lemma strip_w3c_twice (c : object) :
  strip_match (strip_match (strip_match (strip_match c "alwaysMatch") "firstMatch")
                 "alwaysMatch") "firstMatch" =
    strip_match (strip_match c "alwaysMatch") "firstMatch".
Proof.
  apply map_eq. intros k. rewrite !(strip_w3c_lookup float64 (λ _, None)).
  case_decide; [|done]. apply on_object_twice. intros m. apply delete2_twice.
Qed.

(** X1. Deleting is idempotent: a document that has been through the
    deletions of the handler comes out of them unchanged. *)
Theorem strip_idempotent (caps : option object) : strip (strip caps) = strip caps.
Proof.
  destruct caps as [caps|]; [|done].
  destruct (strip_lookup float64 caps) as (caps' & Hs & Hl).
  destruct (strip_lookup float64 caps') as (caps'' & Hs' & Hl').
  rewrite Hs, Hs'. f_equal. apply map_eq. intros k. rewrite Hl', Hl.
  repeat case_decide; [| |done].
  - apply on_object_twice. intros m. apply delete2_twice.
  - apply on_object_twice. intros m. apply strip_w3c_twice.
Qed.


(** At the end of the stream the scanner is fed a space; when that ends an
    object or a [null], any other byte would have ended it too. *)
Lemma scan_step_space_end (s : scanner float64) (c : ascii) v saved consumed :
  scan_step s " " = scanEnd _ v saved consumed →
  (∃ m, v = VMap m) ∨ (v = VNil ∧ saved = None) →
  scan_step s c = scanEnd _ v saved false.
Proof.
  destruct s as [st [|ps rest] sv]; destruct st;
    unfold json.scan_step, do_stateBeginValue, do_stateBeginString, do_state0,
      do_stateESign, endNumber, do_stateEndValue, goto, pushParseState, popParseState;
    cbn [stack step savedError];
    change (isSpace " ") with true;
    change (isDigit " ") with false;
    change (isDigit19 " ") with false;
    change (isHex " ") with false;
    cbn [Ascii.eqb Bool.eqb orb andb];
    try done.
  all: try (intros [= <- <- <-] _; done).
  all: try (destruct (ParseFloat lit); intros [= <- <- <-] [[m Hm]|[Hv Hs]];
            try done; by destruct sv).
  all: try (destruct ps; done).
  all: destruct expect as [|x more]; [done|];
    match goal with
    | |- (if ?b then _ else _) = _ → _ => destruct b; [destruct more|]; done
    end.
Qed.

Lemma scanWhile_app (buf suffix : string) :
  ∀ (s : scanner float64) (nonSpace nonSpace' : bool) v saved rest,
    scanWhile s buf nonSpace = inr (v, saved, rest) →
    (∃ m, v = VMap m) ∨ (v = VNil ∧ saved = None) →
    ∃ rest', scanWhile s (buf +:+ suffix) nonSpace' = inr (v, saved, rest').
Proof.
  induction buf as [|c buf IH]; intros s nonSpace nonSpace' v saved rest.
  - cbn [json.scanWhile].
    destruct (scan_step s " ") as [|v' saved' consumed|] eqn:Hsp; [done| |done].
    intros [= -> -> _] Hv. destruct suffix as [|c suffix].
    + change (EmptyString +:+ EmptyString) with EmptyString.
      cbn [json.scanWhile]. rewrite Hsp. by eexists.
    + change (EmptyString +:+ String c suffix) with (String c suffix).
      cbn [json.scanWhile]. rewrite (scan_step_space_end s c _ _ _ Hsp Hv). by eexists.
  - change (String c buf +:+ suffix) with (String c (buf +:+ suffix)).
    cbn [json.scanWhile].
    destruct (scan_step s c) as [s'|v' saved' consumed|]; [| |done].
    + apply IH.
    + intros [= -> -> _] _. by eexists.
Qed.

(** X2. Once the first value of the body decodes, the bytes after it are
    never looked at: with anything appended to the body the handler does
    what it does without (the inbound [ContentLength] plays no part
    either). *)
Theorem trailing_bytes_ignored (r : Request.t) (suffix : string) (n : Z) caps :
  Decode (Request.Body r) = inr caps →
  Decode (Request.Body r +:+ suffix) = inr caps
  ∧ handler (Request.mk (Request.Method r) (Request.Path r)
               (Request.Body r +:+ suffix) n) = handler r.
Proof.
  intros Hdec.
  assert (Decode (Request.Body r +:+ suffix) = inr caps) as Hdec'.
  { revert Hdec. unfold json.Decode, json.readValue.
    destruct (scanWhile _ (Request.Body r) false) as [|[[v saved] rest]] eqn:Hrun; [done|].
    intros Hv.
    assert ((∃ m, v = VMap m) ∨ (v = VNil ∧ saved = None)) as Hacc.
    { destruct saved; [by destruct v|]. destruct v; try done; eauto. }
    destruct (scanWhile_app _ suffix _ _ false _ _ _ Hrun Hacc) as [rest' ->].
    done. }
  split; [done|]. unfold prism.handler. cbn [Request.Body]. by rewrite Hdec', Hdec.
Qed.

(** X3. The ways an exchange can end.  Either nothing goes to the proxy
    and the answer is 400 or 500; or exactly one request goes to it, with
    the method and the request path of the inbound request (the path
    before the [Director] joins it to the target's) and a
    [ContentLength] that is the length of its body, and the client gets
    502 with an empty body, or the response the hook returned, or, when
    the hook panicked, nothing. *)
Theorem exchange_outcomes RoundTrip (r : Request.t) :
  match exchange RoundTrip r with
  | ([], Written code _) => code = StatusBadRequest ∨ code = StatusInternalServerError
  | ([outreq], rep) =>
      Request.Method outreq = Request.Method r
      ∧ Request.Path outreq = Request.Path r
      ∧ Request.ContentLength outreq = len (Request.Body outreq)
      ∧ match rep with
        | Written code body => code = StatusBadGateway ∧ body = EmptyString
        | Copied res' =>
            ∃ res, RoundTrip outreq = Some res
                   ∧ ModifyResponse float64 ParseFloat Marshal res = Returns (inr res')
        | Aborted msg =>
            ∃ res, RoundTrip outreq = Some res
                   ∧ ModifyResponse float64 ParseFloat Marshal res = Panics msg
        end
  | _ => False
  end.
Proof.
  unfold prism.exchange, prism.handler, prism.forward.
  destruct (Decode (Request.Body r)) as [err|caps]; [by left|].
  destruct (Marshal _) as [err|body]; [by right|].
  destruct (RoundTrip _) as [res|] eqn:Hrt; [|done].
  destruct (ModifyResponse _ _ _ res) as [[e|res']|msg] eqn:Hm; cbn; eauto 10.
Qed.

End inbound_more.

(** * More on the response side *)

Section outbound_more.
Import bytes json http prism doc more.

Variable float64 : Type.
Variable ParseFloat : string → option float64.
Variable Marshal : value float64 → error + string.

Local Abbreviation object := (gmap string (value float64)).
Local Abbreviation Decode := (Decode float64 ParseFloat).
Local Abbreviation inject := (inject float64).
Local Abbreviation reencode := (reencode float64 Marshal).
Local Abbreviation ModifyResponse := (ModifyResponse float64 ParseFloat Marshal).

Lemma inject_Some (vs : object) :
  inject (Some vs) =
    match vs !! "value" with
    | None => Returns (Some vs)
    | Some (VMap value) =>
        match value !! "capabilities" with
        | Some (VMap c) =>
            Returns (Some (<["value" := VMap (<["capabilities" := VMap (canonical c)]> value)]> vs))
        | _ => Returns (Some vs)
        end
    | Some _ => Panics "interface conversion: interface {} is not map[string]interface {}"
    end.
Proof.
  unfold prism.inject, index_var, index, assert, assert_ok, updated, canonical.
  destruct (vs !! "value") as [[| | | | |value]|]; try done. cbn.
  by destruct (value !! "capabilities") as [[]|].
Qed.

(** X4. A 200 response whose document has no object under
    [value.capabilities] (a nil document, no [value], an object under
    [value] without [capabilities] or with something else than an object
    there) is encoded again as it was decoded. *)
Theorem response_without_capabilities_reencoded (resp : Response.t) values :
  Response.StatusCode resp = StatusOK →
  Decode (Response.Body resp) = inr values →
  lacks_capabilities values →
  ModifyResponse resp = reencode resp (of_var float64 values).
Proof.
  intros Hst Hdec Hl.
  rewrite (ModifyResponse_StatusOK float64 ParseFloat Marshal) by done. rewrite Hdec.
  destruct values as [vs|]; [|done]. rewrite inject_Some.
  destruct (Hl vs eq_refl) as [->|(value & -> & Hc)]; [done|].
  destruct (value !! "capabilities") as [[| | | | |c]|] eqn:Hcaps; try done.
  by destruct (Hc c).
Qed.

(** X5. The hook panics in one situation only: the status is 200, the
    body decodes to an object, and what it has under [value] is not an
    object. *)
Theorem ModifyResponse_panics_iff (resp : Response.t) :
  (∃ msg, ModifyResponse resp = Panics msg)
  ↔ Response.StatusCode resp = StatusOK
    ∧ ∃ vs o, Decode (Response.Body resp) = inr (Some vs)
              ∧ vs !! "value" = Some o
              ∧ ∀ m, o ≠ VMap m.
Proof.
  split.
  - intros [msg Hp]. unfold prism.ModifyResponse in Hp.
    destruct (Z.eqb_spec (Response.StatusCode resp) StatusOK) as [Hst|]; [|done].
    split; [done|]. cbn [negb] in Hp.
    destruct (Decode (Response.Body resp)) as [err|[vs|]] eqn:Hdec; [done| |].
    + rewrite inject_Some in Hp. exists vs.
      destruct (vs !! "value") as [o|] eqn:Hv.
      * exists o. split; [done|]. split; [done|]. intros m ->.
        destruct (m !! "capabilities") as [[]|]; unfold prism.reencode in Hp;
          by destruct (Marshal _).
      * unfold prism.reencode in Hp. by destruct (Marshal _).
    + cbn in Hp. unfold prism.reencode in Hp. by destruct (Marshal _).
  - intros (Hst & vs & o & Hdec & Hv & Ho).
    by apply (value_not_object_panics float64 ParseFloat Marshal resp vs o).
Qed.

(** X6. Whatever the status, a response the hook returns has the status
    it came with and the header it came with, the [Content-Length] entry
    apart; when the status is 200 that entry is gone and [ContentLength]
    is the length of the body. *)
Theorem returned_response_framing (resp resp' : Response.t) :
  ModifyResponse resp = Returns (inr resp') →
  Response.StatusCode resp' = Response.StatusCode resp
  ∧ same_except ["Content-Length"] (Response.Header resp) (Response.Header resp')
  ∧ (Response.StatusCode resp = StatusOK →
     Response.Header resp' !! "Content-Length" = None
     ∧ Response.ContentLength resp' = len (Response.Body resp')).
Proof.
  unfold prism.ModifyResponse.
  destruct (Z.eqb_spec (Response.StatusCode resp) StatusOK) as [Hst|Hst]; cbn [negb].
  - destruct (Decode (Response.Body resp)) as [err|values]; [done|].
    destruct (inject values) as [values'|]; [|done].
    intros (Hm & Hl & Hh & Hs)%(reencode_inr float64 Marshal).
    split; [done|]. split; [|split; [|done]].
    + intros k Hk. rewrite elem_of_cons, elem_of_nil in Hk.
      rewrite Hh. unfold Del. rewrite lookup_delete_ne; [done|]. intuition congruence.
    + rewrite Hh. apply lookup_delete_eq.
  - intros [= <-]. split; [done|]. split; [by intros k _|]. by intros Hst'.
Qed.

(** X7. What the target reported as [browserName] and [browserVersion]
    leaves no trace: two documents that differ in these two entries of
    [value.capabilities] only come out of the hook's assignments equal. *)
Theorem reported_identity_overwritten (vs value c1 c2 : object) :
  same_except ["browserName"; "browserVersion"] c1 c2 →
  inject (Some (<["value" := VMap (<["capabilities" := VMap c1]> value)]> vs)) =
    inject (Some (<["value" := VMap (<["capabilities" := VMap c2]> value)]> vs)).
Proof.
  intros Hsame. rewrite !inject_Some, !lookup_insert_eq, !insert_insert_eq.
  assert (canonical c1 = canonical c2) as ->; [|done].
  apply map_eq. intros k. unfold canonical.
  destruct (decide (k = "browserVersion")) as [->|Hv]; [by rewrite !lookup_insert_eq|].
  rewrite !(lookup_insert_ne _ "browserVersion") by done.
  destruct (decide (k = "browserName")) as [->|Hn]; [by rewrite !lookup_insert_eq|].
  rewrite !(lookup_insert_ne _ "browserName") by done.
  symmetry. apply Hsame. rewrite !elem_of_cons, elem_of_nil.
  by intros [?|[?|[]]].
Qed.

Lemma canonical_twice (c : object) : canonical (canonical c) = canonical c.
Proof.
  apply map_eq. intros k. unfold canonical.
  destruct (decide (k = "browserVersion")) as [->|Hk]; [by rewrite !lookup_insert_eq|].
  destruct (decide (k = "browserName")) as [->|Hn]; by simplify_map_eq.
Qed.

(** X8. The assignments are idempotent: a document that came out of them
    goes through them unchanged. *)
Theorem inject_idempotent values values' :
  inject values = Returns values' → inject values' = Returns values'.
Proof.
  destruct values as [vs|]; [|by intros [= <-]].
  rewrite inject_Some.
  destruct (vs !! "value") as [[| | | | |value]|] eqn:Hv; try done.
  - destruct (value !! "capabilities") as [[| | | | |c]|] eqn:Hc; intros [= <-].
    all: try (by rewrite inject_Some, Hv, Hc).
    by rewrite inject_Some, !lookup_insert_eq, !insert_insert_eq, canonical_twice.
  - intros [= <-]. by rewrite inject_Some, Hv.
Qed.

End outbound_more.

(** * More on waiting *)

Section waiting_more.
Import http prism more.

Variable URL : Type.
Variable NewRequest : string → string + URL.

Local Abbreviation wait := (wait URL NewRequest).
Local Abbreviation wait_turn := (@wait_turn URL).

(** X9. What [wait] returns.  A URL is the URL of the request made from
    the target; the error of a target that makes no request comes before
    any probe; and every other error is a failure the client reported
    for one of the probes, whose cause is the cancellation or the
    deadline of the context. *)
Theorem wait_result (target : string) (net : list DoResult) (r : waitError + URL) :
  (wait target net).2 = Some r →
  match r with
  | inr u => NewRequest target = inr u
  | inl (ErrNewRequest msg) =>
      NewRequest target = inl msg ∧ (wait target net).1 = []
  | inl (ErrDo c) =>
      (c = Canceled ∨ c = DeadlineExceeded)
      ∧ ∃ res, res ∈ net ∧ err res = Some (UrlError c)
  end.
Proof.
  induction net as [|res net IH]; cbn [prism.wait].
  - destruct (NewRequest target) as [msg|u]; [|done]. by intros [= <-].
  - destruct (NewRequest target) as [msg|u] eqn:Hnr; [by intros [= <-]|].
    destruct (wait_turn u res) as [r'|d] eqn:Ht.
    + intros [= <-]. revert Ht. unfold prism.wait_turn.
      destruct (err res) as [[[]|]|] eqn:Herr; intros [= <-]; try done.
      all: split; [auto|]; exists res; split; [by left|done].
    + revert IH. destruct (wait target net) as [tr r'] eqn:Hw. cbn [fst snd].
      intros IH Hr. specialize (IH Hr).
      destruct r as [[msg'|c]|u']; [| |done].
      * destruct IH as [IH _]. congruence.
      * destruct IH as (Hc & res' & Hin & Hres'). split; [done|].
        exists res'. split; [by right|done].
Qed.

(** X10. On every run the loop makes at most one probe per answer of the
    network, and the time it spends pausing is 100ms for every probe but
    the one it returns on. *)
Theorem wait_paces (target : string) (net : list DoResult) :
  (probes (wait target net).1 ≤ length net)%nat
  ∧ slept (wait target net).1 =
      100 * Millisecond
      * Z.of_nat (match (wait target net).2 with
                  | Some _ => probes (wait target net).1 - 1
                  | None => probes (wait target net).1
                  end).
Proof.
  induction net as [|res net [IHp IHs]]; cbn [prism.wait].
  - destruct (NewRequest target); cbn; split; lia.
  - destruct (NewRequest target) as [msg|u] eqn:Hnr; [cbn; split; lia|].
    destruct (wait_turn u res) as [r|d] eqn:Ht; [cbn; split; lia|].
    assert (d = 100 * Millisecond) as ->.
    { revert Ht. unfold prism.wait_turn. by destruct (err res) as [[[]|]|]; intros [= <-]. }
    destruct (wait target net) as [tr r] eqn:Hw. cbn [fst snd] in *.
    cbn [probes slept length]. split; [lia|]. rewrite IHs. unfold Millisecond.
    destruct r as [r|]; [|lia].
    assert (probes tr ≠ O).
    { revert Hw. destruct net as [|res' net']; cbn; rewrite Hnr; [done|].
      destruct (wait_turn u res'); [by intros [= <- _]|].
      destruct (prism.wait URL NewRequest target net'). by intros [= <- _]. }
    lia.
Qed.

End waiting_more.

(** * Routing *)

Section routing.
Import path elements route.

Local Abbreviation L := list_ascii_of_string.

Lemma append_cons (x : ascii) (a b : string) : String x a +:+ b = String x (a +:+ b).
Proof. done. Qed.

Lemma append_nil_l (b : string) : EmptyString +:+ b = b.
Proof. done. Qed.

Lemma L_app (a b : string) : L (a +:+ b) = (L a ++ L b)%list.
Proof.
  induction a as [|c a IH]; [done|]. rewrite append_cons. cbn [L]. by rewrite IH.
Qed.

Lemma append_assoc (a b c : string) : (a +:+ b) +:+ c = a +:+ b +:+ c.
Proof.
  induction a as [|x a IH]; [done|]. by rewrite !append_cons, IH.
Qed.

Lemma abs_app (a b : list string) : abs (a ++ b) = abs a +:+ abs b.
Proof.
  induction a as [|e a IH]; [done|]. cbn [app abs].
  by rewrite IH, append_cons, append_assoc.
Qed.

Lemma append_empty_r (s : string) : s +:+ EmptyString = s.
Proof.
  induction s as [|c s IH]; [done|]. by rewrite append_cons, IH.
Qed.

Lemma at_end_abs (elems : list string) : at_end (abs elems) = true.
Proof. by destruct elems. Qed.

Lemma clean_loop_skip rooted out dotdot (tail : string) :
  at_end tail = true →
  clean_loop rooted false out dotdot tail = clean_loop rooted false out dotdot (skip tail).
Proof.
  destruct tail as [|c t]; [done|]. cbn [at_end clean_loop skip]. by intros ->.
Qed.

Lemma clean_loop_copying rooted (e tail : string) :
  no_slash e → at_end tail = true →
  ∀ out dotdot,
    clean_loop rooted true out dotdot (e +:+ tail) =
      clean_loop rooted false (rev (L e) ++ out) dotdot (skip tail).
Proof.
  intros He Ht. induction e as [|c e IH]; intros out dotdot.
  - destruct tail as [|c t]; [done|]. cbn [at_end] in Ht.
    rewrite append_nil_l. cbn [clean_loop skip L rev app]. by rewrite Ht.
  - inversion_clear He as [|? ? Hc He']. rewrite ?append_cons, ?append_nil_l; cbn [clean_loop].
    destruct (Ascii.eqb_spec c slash) as [|_]; [done|].
    rewrite IH by done. cbn [L rev]. by rewrite <- app_assoc.
Qed.

Lemma unwind_element (sb base : list ascii) :
  ∀ top, Forall (λ c, c ≠ slash) sb → top ≠ slash →
    unwind 1 top (sb ++ slash :: base) =
      match base with [] => [slash] | _ => base end.
Proof.
  induction sb as [|c sb IH]; intros top Hsb Htop.
  - cbn [app unwind length].
    destruct (Ascii.eqb_spec top slash) as [|_]; [done|].
    destruct base as [|b base]; [done|]. cbn.
    by rewrite andb_false_r.
  - inversion_clear Hsb as [|? ? Hc Hsb']. cbn [app unwind].
    destruct (Ascii.eqb_spec top slash) as [|_]; [done|].
    replace (1 <? length (c :: sb ++ slash :: base))%nat with true.
    + cbn. by apply IH.
    + symmetry. apply Nat.ltb_lt. cbn. rewrite length_app. cbn. lia.
Qed.

Lemma abs_nil_inv (stack : list string) : abs stack = EmptyString → stack = [].
Proof. by destruct stack. Qed.

Lemma R_snoc (stack : list string) (e : string) :
  R (stack ++ [e])%list = (rev (L e) ++ slash :: rev (L (abs stack)))%list.
Proof.
  unfold R, root. destruct (stack ++ [e])%list as [|x l] eqn:Hx.
  { by destruct stack. }
  rewrite <- Hx, abs_app. cbn [abs]. rewrite append_empty_r, L_app.
  cbn [L]. rewrite rev_app_distr. cbn [rev]. by rewrite <- app_assoc.
Qed.

Lemma R_cases (stack : list string) :
  R stack = match stack with [] => [slash] | _ => rev (L (abs stack)) end.
Proof. by destruct stack. Qed.

Lemma plain_resolve (stack : list string) (e : string) :
  no_slash e → Forall plain stack → Forall plain (resolve stack e).
Proof.
  intros He Hs. unfold resolve. repeat case_decide; [done| |].
  - clear -Hs. induction Hs as [|x l Hx Hl IH]; [done|].
    destruct l; [constructor|]. cbn in *. by constructor.
  - apply Forall_app. split; [done|]. repeat constructor; tauto.
Qed.

Lemma length_R_plain (e : string) (stack : list string) :
  e ≠ EmptyString → (length (R (e :: stack)) =? 1)%nat = false.
Proof.
  intros He. unfold R, root. cbn [abs L]. rewrite length_rev. cbn [length].
  rewrite L_app, length_app. destruct e as [|c e]; [done|]. done.
Qed.

Ltac eval_eqb :=
  repeat match goal with
    | |- context [Ascii.eqb ?a ?b] =>
        let v := eval vm_compute in (Ascii.eqb a b) in
        match v with
        | true => change (Ascii.eqb a b) with true
        | false => change (Ascii.eqb a b) with false
        end
    end.

Lemma clean_loop_dot rooted out dotdot (tail : string) :
  at_end tail = true →
  clean_loop rooted false out dotdot (String dot tail) =
    clean_loop rooted false out dotdot tail.
Proof.
  intros Ht. cbn [clean_loop]. eval_eqb. by rewrite Ht.
Qed.

Lemma clean_loop_dotdot rooted out dotdot (tail : string) :
  at_end tail = true →
  clean_loop rooted false out dotdot (String dot (String dot tail)) =
    clean_loop rooted false (backtrack rooted out dotdot).1
      (backtrack rooted out dotdot).2 tail.
Proof.
  intros Ht. cbn [clean_loop at_end]. eval_eqb. cbn [andb]. rewrite Ht.
  by destruct (backtrack rooted out dotdot).
Qed.

(** An element that names something takes the [default] case. *)
Lemma clean_loop_default rooted out dotdot (c : ascii) (e tail : string) :
  plain (String c e) → at_end tail = true →
  clean_loop rooted false out dotdot (String c (e +:+ tail)) =
    clean_loop rooted true
      (c :: (if rooted && negb (length out =? 1)%nat
                || negb rooted && negb (length out =? 0)%nat
             then slash :: out else out))
      dotdot (e +:+ tail).
Proof.
  intros (_ & Hd & Hdd & He) Ht. inversion_clear He as [|? ? Hc He'].
  cbn [clean_loop]. destruct (Ascii.eqb_spec c slash) as [|_]; [done|].
  destruct (Ascii.eqb_spec c dot) as [->|_]; cbn [andb]; [|by destruct (e +:+ tail)].
  destruct e as [|c1 e]; [done|]. inversion_clear He' as [|? ? Hc1 He''].
  rewrite append_cons. cbn [at_end].
  destruct (Ascii.eqb_spec c1 slash) as [|_]; [done|].
  destruct (Ascii.eqb_spec c1 dot) as [->|_]; cbn [andb]; [|done].
  destruct e as [|c2 e]; [done|]. inversion_clear He'' as [|? ? Hc2 _].
  rewrite append_cons. cbn [at_end].
  by destruct (Ascii.eqb_spec c2 slash) as [|_].
Qed.

Lemma backtrack_rooted (stack : list string) :
  Forall plain stack → backtrack true (R stack) 1 = (R (removelast stack), 1%nat).
Proof.
  intros Hs. unfold backtrack.
  destruct stack as [|x stack _] using rev_ind; [done|].
  rewrite removelast_last, R_snoc.
  apply Forall_app in Hs as [Hs Hx]. inversion_clear Hx as [|? ? (Hx0 & _ & _ & Hxs) _].
  destruct x as [|c x]; [done|]. cbn [L rev].
  destruct (rev (L x) ++ [c])%list as [|top sb] eqn:Hrev.
  { by destruct (rev (L x)). }
  assert (Forall (λ c, c ≠ slash) (top :: sb)) as Hall.
  { rewrite <- Hrev. inversion_clear Hxs.
    apply Forall_app. split; [by apply Forall_rev|by repeat constructor]. }
  inversion_clear Hall as [|? ? Htop Hsb].
  cbn [app]. replace (1 <? length (top :: sb ++ slash :: rev (L (abs stack))))%nat with true.
  - rewrite unwind_element by done. rewrite R_cases. destruct stack as [|y stack]; [done|].
    destruct (rev (L (abs (y :: stack)))) eqn:Hr; [|done].
    apply (f_equal (@length _)) in Hr. rewrite length_rev in Hr. by cbn in Hr.
  - symmetry. apply Nat.ltb_lt. cbn. rewrite length_app. cbn. lia.
Qed.

(** One element of the path, from the top of the loop. *)
Lemma clean_loop_element (stack : list string) (e tail : string) :
  Forall plain stack → no_slash e → at_end tail = true →
  clean_loop true false (R stack) 1 (e +:+ tail) =
    clean_loop true false (R (resolve stack e)) 1 (skip tail).
Proof.
  intros Hs He Ht. unfold resolve.
  destruct (decide (e = EmptyString ∨ e = ".")) as [[->| ->]|Hne].
  - by apply clean_loop_skip.
  - rewrite append_cons, append_nil_l, clean_loop_dot by done.
    by apply clean_loop_skip.
  - destruct (decide (e = "..")) as [->|Hdd].
    + rewrite !append_cons, append_nil_l, clean_loop_dotdot by done.
      rewrite backtrack_rooted by done. by apply clean_loop_skip.
    + destruct e as [|c e]; [tauto|].
      assert (plain (String c e)) as Hp by (unfold plain; tauto).
      rewrite append_cons, clean_loop_default by done.
      inversion_clear He as [|? ? Hc He'].
      rewrite clean_loop_copying by done. f_equal.
      rewrite R_snoc. cbn [L rev andb orb negb]. rewrite <- app_assoc. cbn [app].
      do 2 f_equal. rewrite orb_false_r.
      destruct Hs as [|x stack [Hx _] _]; [done|].
      by rewrite length_R_plain.
Qed.

Lemma clean_loop_elements (elems : list string) :
  ∀ (stack : list string) (e : string),
    Forall plain stack → no_slash e → Forall no_slash elems →
    clean_loop true false (R stack) 1 (e +:+ abs elems) =
      R (foldl resolve stack (e :: elems)).
Proof.
  induction elems as [|e' elems IH]; intros stack e Hs He Hel.
  - rewrite clean_loop_element by done. done.
  - inversion_clear Hel as [|? ? He' Hel']. rewrite clean_loop_element; [|done..].
    cbn [abs skip foldl]. rewrite IH; [done| |done..]. by apply plain_resolve.
Qed.

(** [path.Clean] on a rooted path, element by element: empty elements
    and [.] are dropped, [..] drops the element before it (and nothing at
    the root), the others are kept. *)
Lemma Clean_rooted (elems : list string) :
  elems ≠ [] → Forall no_slash elems →
  Clean (abs elems) = root (foldl resolve [] elems).
Proof.
  intros Hne Hel. destruct elems as [|e elems]; [done|].
  inversion_clear Hel as [|? ? He Hel']. unfold Clean. cbn [abs].
  rewrite Ascii.eqb_refl.
  change [slash] with (R []). rewrite clean_loop_elements by done.
  unfold R. rewrite rev_involutive, string_of_list_ascii_of_string.
  destruct (rev _) eqn:Hr; [|done].
  apply (f_equal (@length _)) in Hr. rewrite length_rev in Hr.
  by destruct (foldl resolve [] (e :: elems)).
Qed.


Lemma Join_two (p q : string) :
  Join [p; q] =
    match p, q with
    | EmptyString, EmptyString => EmptyString
    | EmptyString, _ => Clean q
    | _, _ => Clean (p +:+ String slash q)
    end.
Proof.
  unfold Join. destruct p as [|c p], q as [|d q]; try done.
  all: cbn [forallb String.eqb andb join_buf String.length Nat.ltb Nat.leb orb negb].
  all: rewrite ?append_nil_l; cbn [String.length orb].
  all: by rewrite ?append_empty_r, ?append_assoc, ?append_cons, ?append_nil_l.
Qed.

Lemma foldl_resolve_plain (l : list string) :
  ∀ stack, Forall plain l → foldl resolve stack l = (stack ++ l)%list.
Proof.
  induction l as [|e l IH]; intros stack Hl; [by rewrite app_nil_r|].
  inversion_clear Hl as [|? ? (He & Hd & Hdd & _) Hl']. cbn [foldl].
  rewrite IH by done. unfold resolve.
  rewrite decide_False, decide_False by tauto. by rewrite <- app_assoc.
Qed.

Lemma plain_foldl_resolve (l : list string) :
  ∀ stack, Forall plain stack → Forall no_slash l → Forall plain (foldl resolve stack l).
Proof.
  induction l as [|e l IH]; intros stack Hs Hl; [done|].
  inversion_clear Hl. cbn [foldl]. apply IH; [|done]. by apply plain_resolve.
Qed.

Lemma plain_no_slash (l : list string) : Forall plain l → Forall no_slash l.
Proof. intros Hl. eapply Forall_impl; [exact Hl|]. by intros e (_ & _ & _ & He). Qed.

(** The two paths of the [Director], as lists of elements. *)
Lemma Join_elements (u r : URL) (a b : list string) :
  Forall no_slash a → Forall no_slash b → (a ++ b)%list ≠ [] →
  Path u = abs a → Path r = abs b →
  Director u r =
    mkURL (Scheme u) (Host u) (root (foldl resolve [] (a ++ b))) (RawQuery r)
  ∧ Forall plain (foldl resolve [] (a ++ b)).
Proof.
  intros Ha Hb Hne Hu Hr.
  split; [|apply plain_foldl_resolve; [done|by apply Forall_app]].
  unfold Director. f_equal. rewrite Hu, Hr, Join_two.
  destruct a as [|e a].
  - destruct b as [|e b]; [done|]. by apply Clean_rooted.
  - cbn [abs]. change (String slash (e +:+ abs a)) with (abs (e :: a)).
    change (String slash (abs b)) with (abs (EmptyString :: b)).
    rewrite <- abs_app, Clean_rooted.
    + by rewrite !foldl_app.
    + done.
    + apply Forall_app. split; [done|]. constructor; [constructor|done].
Qed.

(** X11. The path the Director sends upstream, for a target path and a
    request path written as lists of elements, is the rooted path of
    what is left of the two lists put end to end once every empty element
    and every [.] has been dropped and every [..] has taken away the
    element before it (at the root, nothing).  The path that results has
    only elements that name something: no doubled slash, no slash at the
    end, no [.] or [..]; scheme and host are the target's, the query the
    request's. *)
Theorem Director_path (u r : URL) (a b : list string) :
  Forall no_slash a → Forall no_slash b → (a ++ b)%list ≠ [] →
  Path u = abs a → Path r = abs b →
  Director u r =
    mkURL (Scheme u) (Host u) (root (foldl resolve [] (a ++ b))) (RawQuery r)
  ∧ Forall plain (foldl resolve [] (a ++ b)).
Proof. apply Join_elements. Qed.



(** X12. When the path of the target and the path of the request are
    made of elements that name something, the request path with or
    without a slash at its end, the path sent upstream is the elements of
    the target followed by those of the request, one slash before each:
    no element is lost, no slash doubled, and the slash at the end is
    dropped. *)
Theorem Director_joins (u r : URL) (a b : list string) (t : string) :
  Forall plain a → Forall plain b →
  Path u = abs a → Path r = abs b +:+ t → t = EmptyString ∨ t = "/" →
  Path u +:+ Path r ≠ EmptyString →
  Path (Director u r) = root (a ++ b).
Proof.
  intros Ha Hb Hu Hr Ht Hne.
  set (b' := (b ++ (if decide (t = EmptyString) then [] else [EmptyString]))%list).
  assert (Path r = abs b') as Hr'.
  { rewrite Hr. unfold b'. destruct Ht as [-> | ->]; cbn [decide].
    - by rewrite decide_True, app_nil_r, append_empty_r.
    - rewrite decide_False by done. by rewrite abs_app. }
  assert (foldl resolve [] (a ++ b') = (a ++ b)%list) as Hfold.
  { unfold b'. rewrite app_assoc, foldl_app.
    rewrite (foldl_resolve_plain (a ++ b) []) by (by apply Forall_app).
    destruct (decide (t = EmptyString)); [done|].
    cbn [foldl app]. unfold resolve. by rewrite decide_True by (by left). }
  assert (Forall no_slash b') as Hb'.
  { unfold b'. apply Forall_app. split; [by apply plain_no_slash|].
    destruct (decide (t = EmptyString)); repeat constructor. }
  assert ((a ++ b')%list ≠ []) as Hne'.
  { intros Hnil. apply Hne. rewrite Hu, Hr'.
    by apply app_eq_nil in Hnil as [-> ->]. }
  destruct (Join_elements u r a b' (plain_no_slash _ Ha) Hb' Hne' Hu Hr') as [-> _].
  cbn [Path]. by rewrite Hfold.
Qed.

Lemma no_slash_dotdot : no_slash "..".
Proof. repeat constructor; discriminate. Qed.

Lemma foldl_resolve_dotdot (n : nat) :
  ∀ stack, foldl resolve stack (replicate n "..") = take (length stack - n) stack.
Proof.
  induction n as [|n IH]; intros stack.
  - cbn. by rewrite Nat.sub_0_r, firstn_all.
  - cbn [replicate foldl]. rewrite IH. unfold resolve.
    rewrite decide_False, decide_True by (try done; by intros [|]).
    rewrite removelast_firstn_len, take_take, length_take.
    f_equal. lia.
Qed.

(** X13. The request path is not confined to the path of the target:
    [n] elements [..] at its head take the last [n] elements of the
    target path away (all of them when there are fewer), and what follows
    them is appended to what is left. *)
Theorem Director_climbs (u r : URL) (a b : list string) (n : nat) :
  Forall plain a → Forall plain b → (0 < n)%nat →
  Path u = abs a → Path r = abs (replicate n ".." ++ b) →
  Path (Director u r) = root (take (length a - n) a ++ b).
Proof.
  intros Ha Hb Hn Hu Hr.
  assert (Forall no_slash (replicate n ".." ++ b)%list) as Hb'.
  { apply Forall_app. split; [|by apply plain_no_slash].
    apply Forall_replicate, no_slash_dotdot. }
  assert ((a ++ replicate n ".." ++ b)%list ≠ []) as Hne.
  { destruct n; [lia|]. by destruct a. }
  destruct (Join_elements u r a _ (plain_no_slash _ Ha) Hb' Hne Hu Hr) as [-> _].
  cbn [Path]. rewrite !foldl_app, foldl_resolve_dotdot.
  rewrite (foldl_resolve_plain a []) by done. cbn [app].
  apply f_equal, foldl_resolve_plain, Hb.
Qed.

End routing.
(** * The model at work *)

Import bytes json http prism doc example.

Local Abbreviation handler := example.handler.
Local Abbreviation ModifyResponse := example.ModifyResponse.
Local Abbreviation exchange := example.exchange.
Local Abbreviation Decode := example.Decode.
Local Abbreviation forward := (prism.forward float64 Marshal Error).
Local Abbreviation reencode := (prism.reencode float64 Marshal).

Example Decode_new_session : Decode new_session = inr (Some new_session_caps).
Proof. vm_compute. reflexivity. Qed.

Example Decode_session_created : Decode session_created = inr (Some session_values).
Proof. vm_compute. reflexivity. Qed.

(** Escapes are resolved before a key is looked at, the last of two equal
    keys wins, and what follows the value is left unread. *)
Example Decode_escapes :
  Decode (js "{'browser\u004eame':'a\tb','k':1,'k':[2.5e3,null]} trailing") =
    inr (Some {[ "browserName" := VString (String "a" (String "009" "b"));
                 "k" := VSlice [VFloat64 "2.5e3"; VNil] ]}).
Proof. vm_compute. reflexivity. Qed.

Example Decode_truncated : Decode (js "{'k':[1,") = inl ErrUnexpectedEOF.
Proof. vm_compute. reflexivity. Qed.

Example Decode_syntax :
  Decode (js "{'k':tru3}") = inl (SyntaxError "3" "in literal true (expecting 'e')").
Proof. vm_compute. reflexivity. Qed.

(** The request as it leaves for the target. *)
Example handler_new_session :
  handler (post new_session) =
    ServeHTTP (Request.mk "POST" "/session"
      (js ("{'capabilities':{'alwaysMatch':{'acceptInsecureCerts':true},"
           +:+ "'firstMatch':[{'browserName':'chrome'}]},"
           +:+ "'desiredCapabilities':{'platform':'MAC'},'user':'ci'}"))
      154).
Proof. vm_compute. reflexivity. Qed.

(** The response as it leaves for the client. *)
Example ModifyResponse_session_created :
  ModifyResponse (ok session_created) =
    Returns (inr (Response.mk 200 ∅
      (js ("{'value':{'capabilities':{'browserName':'safari','browserVersion':'13.0',"
           +:+ "'platformName':'mac'},'sessionId':'3f'}}"))
      113)).
Proof. vm_compute. reflexivity. Qed.

Lemma inbound_identity_deleted_witness :
  Decode (Request.Body (post new_session)) = inr (Some new_session_caps)
  ∧ ∃ caps', handler (post new_session) = forward (post new_session) (VMap caps')
      ∧ no_identity caps'
      ∧ (no_identity new_session_caps → caps' = new_session_caps)
      ∧ ∀ body, Marshal (VMap caps') = inr body →
          handler (post new_session) = ServeHTTP (Request.mk "POST" "/session" body (len body))
          ∧ ∀ RoundTrip,
              (exchange RoundTrip (post new_session)).1 =
                [Request.mk "POST" "/session" body (len body)].
Proof.
  split; [vm_compute; reflexivity|].
  apply (inbound_identity_deleted float64 ParseFloat Marshal Error
           (post new_session) new_session_caps).
  vm_compute; reflexivity.
Defined.

Lemma inbound_rest_preserved_witness :
  Decode (Request.Body (post new_session)) = inr (Some new_session_caps)
  ∧ ∃ caps', handler (post new_session) = forward (post new_session) (VMap caps')
      ∧ same_except ["desiredCapabilities"; "capabilities"] new_session_caps caps'
      ∧ at_key "desiredCapabilities" (same_except ["browserName"; "version"])
          new_session_caps caps'
      ∧ at_key "capabilities"
          (λ c c', same_except ["alwaysMatch"; "firstMatch"] c c'
             ∧ at_key "alwaysMatch" (same_except ["browserName"; "browserVersion"]) c c'
             ∧ at_key "firstMatch" (same_except ["browserName"; "browserVersion"]) c c')
          new_session_caps caps'
      ∧ (new_session_caps !! "desiredCapabilities" = None →
         new_session_caps !! "capabilities" = None →
         caps' = new_session_caps)
      ∧ ∀ body, Marshal (VMap caps') = inr body →
          handler (post new_session) = ServeHTTP (Request.mk "POST" "/session" body (len body))
          ∧ ∀ RoundTrip,
              (exchange RoundTrip (post new_session)).1 =
                [Request.mk "POST" "/session" body (len body)].
Proof.
  split; [vm_compute; reflexivity|].
  apply (inbound_rest_preserved float64 ParseFloat Marshal Error
           (post new_session) new_session_caps).
  vm_compute; reflexivity.
Defined.

Lemma firstMatch_array_untouched_witness :
  ∃ caps' c', handler (post new_session) = forward (post new_session) (VMap caps')
    ∧ caps' !! "capabilities" = Some (VMap c')
    ∧ c' !! "firstMatch" = Some (VSlice [ VMap {[ "browserName" := VString "chrome" ]} ]).
Proof.
  apply (firstMatch_array_untouched float64 ParseFloat Marshal Error
           (post new_session) new_session_caps
           {[ "alwaysMatch" :=
                VMap {[ "browserName" := VString "firefox";
                        "acceptInsecureCerts" := VBool true ]};
              "firstMatch" := VSlice [ VMap {[ "browserName" := VString "chrome" ]} ] ]});
    vm_compute; reflexivity.
Defined.

(** A body cut short. *)
Lemma malformed_body_rejected_witness :
  exchange (λ _, None) (post (js "{'desiredCapabilities':{'browserName':")) =
    ([], BadRequest Error ErrUnexpectedEOF).
Proof.
  apply (malformed_body_rejected float64 ParseFloat Marshal Error (λ _, None)
           (post (js "{'desiredCapabilities':{'browserName':")) ErrUnexpectedEOF).
  vm_compute; reflexivity.
Defined.

(** C5, as stated, fails: [{}x] is not valid JSON, and the handler does
    not answer 400 but proxies the request with the body [{}]. *)
Lemma trailing_bytes_not_rejected :
  Valid ParseFloat (Request.Body (post "{}x")) = false
  ∧ handler (post "{}x") = ServeHTTP (Request.mk "POST" "/session" "{}" 2)
  ∧ ∀ msg, handler (post "{}x") ≠ http_Error msg StatusBadRequest.
Proof.
  split; [vm_compute; reflexivity|].
  split; [vm_compute; reflexivity|].
  intros msg. vm_compute. discriminate.
Qed.

Lemma outbound_identity_injected_witness :
  ∃ values' value' capabilities',
    ModifyResponse (ok session_created) = reencode (ok session_created) (VMap values')
    ∧ values' !! "value" = Some (VMap value')
    ∧ value' !! "capabilities" = Some (VMap capabilities')
    ∧ capabilities' !! "browserName" = Some (VString browserName)
    ∧ capabilities' !! "browserVersion" = Some (VString browserVersion)
    ∧ same_except ["browserName"; "browserVersion"] session_capabilities capabilities'
    ∧ same_except ["capabilities"] session_value value'
    ∧ same_except ["value"] session_values values'
    ∧ (∀ resp', reencode (ok session_created) (VMap values') = Returns (inr resp') →
        Marshal (VMap values') = inr (Response.Body resp')
        ∧ Response.ContentLength resp' = len (Response.Body resp')
        ∧ Response.Header resp' !! "Content-Length" = None
        ∧ same_except ["Content-Length"]
            (Response.Header (ok session_created)) (Response.Header resp')
        ∧ Response.StatusCode resp' = Response.StatusCode (ok session_created))
    ∧ ∀ buf, Marshal (VMap values') = inr buf →
        ModifyResponse (ok session_created) =
          Returns (inr (Response.mk 200 (Del (Response.Header (ok session_created))
                                           "Content-Length") buf (len buf)))
        ∧ ∀ RoundTrip r outreq,
            handler r = ServeHTTP outreq →
            RoundTrip outreq = Some (ok session_created) →
            exchange RoundTrip r =
              ([outreq],
               Copied (Response.mk 200 (Del (Response.Header (ok session_created))
                                          "Content-Length") buf (len buf))).
Proof.
  apply (outbound_identity_injected float64 ParseFloat Marshal Error
           (ok session_created) session_values session_value session_capabilities);
    vm_compute; reflexivity.
Defined.

(** C4 fails on the code: with a string under [value] the hook panics,
    and the client is left without a response. *)
Lemma value_string_panics :
  ModifyResponse (ok (js "{'value':'no such session'}")) =
    Panics "interface conversion: interface {} is not map[string]interface {}"
  ∧ exchange (λ _, Some (ok (js "{'value':'no such session'}"))) (post "{}") =
      ([Request.mk "POST" "/session" "{}" 2],
       Aborted "interface conversion: interface {} is not map[string]interface {}").
Proof. split; vm_compute; reflexivity. Qed.

(** The same with [null], a number or an array under [value]. *)
Example value_null_panics :
  ∃ msg, ModifyResponse (ok (js "{'value':null}")) = Panics msg.
Proof. eexists. vm_compute. reflexivity. Qed.

Example value_array_panics :
  ∃ msg, ModifyResponse (ok (js "{'value':[{'id':'3f'}]}")) = Panics msg.
Proof. eexists. vm_compute. reflexivity. Qed.

Lemma other_status_untouched_witness :
  ModifyResponse not_found = Returns (inr not_found)
  ∧ ∀ RoundTrip r outreq,
      handler r = ServeHTTP outreq →
      RoundTrip outreq = Some not_found →
      exchange RoundTrip r = ([outreq], Copied not_found).
Proof.
  apply (other_status_untouched float64 ParseFloat Marshal Error not_found).
  vm_compute. discriminate.
Defined.

Lemma undecodable_response_bad_gateway_witness :
  (∃ err, ModifyResponse (ok "<html>") = Returns (inl err))
  ∧ ∀ RoundTrip r outreq,
      handler r = ServeHTTP outreq →
      RoundTrip outreq = Some (ok "<html>") →
      exchange RoundTrip r = ([outreq], Written StatusBadGateway EmptyString).
Proof.
  apply (undecodable_response_bad_gateway float64 ParseFloat Marshal Error (ok "<html>")).
  - vm_compute; reflexivity.
  - left. eexists. vm_compute. reflexivity.
Defined.

Lemma wait_polls_until_answer_witness :
  example.wait target (booting ++ [Do (Some 404) None])%list =
    ((polls target 3 ++ [Head target])%list, Some (inr target)).
Proof.
  apply (wait_polls_until_answer string NewRequest target target eq_refl).
  - repeat constructor.
  - reflexivity.
Defined.

(** Bodies that are JSON and not an object, and the empty body. *)
Example array_body : exchange (λ _, None) (post "[1,2]") =
                       ([], BadRequest Error (UnmarshalTypeError "array")).
Proof. vm_compute. reflexivity. Qed.

Example string_body : exchange (λ _, None) (post (js "'session'")) =
                        ([], BadRequest Error (UnmarshalTypeError "string")).
Proof. vm_compute. reflexivity. Qed.

Example number_body : exchange (λ _, None) (post "42") =
                        ([], BadRequest Error (UnmarshalTypeError "number")).
Proof. vm_compute. reflexivity. Qed.

Example boolean_body : exchange (λ _, None) (post "true") =
                         ([], BadRequest Error (UnmarshalTypeError "bool")).
Proof. vm_compute. reflexivity. Qed.

Example empty_body : exchange (λ _, None) (Request.mk "GET" "/status" EmptyString 0) =
                       ([], BadRequest Error EOF).
Proof. vm_compute. reflexivity. Qed.

Example null_body :
  handler (post "null") = ServeHTTP (Request.mk "POST" "/session" "null" 4).
Proof. vm_compute. reflexivity. Qed.

(** Three refused probes, then the deadline. *)
Example wait_deadline :
  example.wait target (booting ++ [Do None (Some (UrlError DeadlineExceeded))])%list =
    ((polls target 3 ++ [Head target])%list, Some (inl (ErrDo DeadlineExceeded))).
Proof. vm_compute. reflexivity. Qed.

(** ** Further properties at work *)

Example Decode_status : Decode (js "{'value':{'ready':true}}") =
                          inr (Some {[ "value" := VMap {[ "ready" := VBool true ]} ]}).
Proof. vm_compute. reflexivity. Qed.

Lemma trailing_bytes_ignored_witness :
  Decode (js "{'a':1}" +:+ "]]") = inr (Some {[ "a" := VFloat64 "1" ]})
  ∧ handler (Request.mk "POST" "/session" (js "{'a':1}" +:+ "]]") 0) =
      handler (post (js "{'a':1}")).
Proof.
  apply (trailing_bytes_ignored float64 ParseFloat Marshal Error
           (post (js "{'a':1}")) "]]" 0 (Some {[ "a" := VFloat64 "1" ]})).
  vm_compute; reflexivity.
Defined.

(** The answer to [GET /status] has a [value] and no [capabilities]. *)
Lemma response_without_capabilities_reencoded_witness :
  ModifyResponse (ok (js "{'value':{'ready':true}}")) =
    reencode (ok (js "{'value':{'ready':true}}"))
      (VMap {[ "value" := VMap {[ "ready" := VBool true ]} ]}).
Proof.
  apply (response_without_capabilities_reencoded float64 ParseFloat Marshal
           (ok (js "{'value':{'ready':true}}"))
           (Some {[ "value" := VMap {[ "ready" := VBool true ]} ]})).
  - reflexivity.
  - vm_compute; reflexivity.
  - intros vs [= <-]. right. exists {[ "ready" := VBool true ]}.
    split; [vm_compute; reflexivity|]. intros c. vm_compute. discriminate.
Defined.

Lemma returned_response_framing_witness :
  Response.StatusCode (Response.mk 200 ∅ (js "{'value':{'ready':true}}") 24) =
    Response.StatusCode (ok (js "{'value':{'ready':true}}"))
  ∧ same_except ["Content-Length"]
      (Response.Header (ok (js "{'value':{'ready':true}}")))
      (Response.Header (Response.mk 200 ∅ (js "{'value':{'ready':true}}") 24))
  ∧ (Response.StatusCode (ok (js "{'value':{'ready':true}}")) = StatusOK →
     Response.Header (Response.mk 200 ∅ (js "{'value':{'ready':true}}") 24)
       !! "Content-Length" = None
     ∧ Response.ContentLength (Response.mk 200 ∅ (js "{'value':{'ready':true}}") 24) =
         len (Response.Body (Response.mk 200 ∅ (js "{'value':{'ready':true}}") 24))).
Proof.
  apply (returned_response_framing float64 ParseFloat Marshal
           (ok (js "{'value':{'ready':true}}"))).
  vm_compute; reflexivity.
Defined.

(** Two reports of the target that differ in the identity only. *)
Lemma reported_identity_overwritten_witness :
  inject float64
    (Some (<["value" := VMap (<["capabilities" :=
                                  VMap {[ "browserName" := VString "Safari";
                                          "platformName" := VString "mac" ]}]> ∅)]> ∅)) =
  inject float64
    (Some (<["value" := VMap (<["capabilities" :=
                                  VMap {[ "browserVersion" := VString "17.4";
                                          "platformName" := VString "mac" ]}]> ∅)]> ∅)).
Proof.
  apply (reported_identity_overwritten float64).
  intros k Hk. rewrite !elem_of_cons, elem_of_nil in Hk.
  destruct (decide (k = "browserName")) as [->|Hn]; [tauto|].
  destruct (decide (k = "browserVersion")) as [->|Hv]; [tauto|].
  by rewrite !lookup_insert_ne.
Defined.

Lemma inject_idempotent_witness :
  inject float64 (Some {[ "value" := VMap {[ "capabilities" :=
       VMap {[ "browserName" := VString browserName;
               "browserVersion" := VString browserVersion;
               "platformName" := VString "mac" ]} ]} ]}) =
    Returns (Some {[ "value" := VMap {[ "capabilities" :=
       VMap {[ "browserName" := VString browserName;
               "browserVersion" := VString browserVersion;
               "platformName" := VString "mac" ]} ]} ]}).
Proof.
  apply (inject_idempotent float64
           (Some {[ "value" := VMap {[ "capabilities" :=
              VMap {[ "browserName" := VString "Safari";
                      "platformName" := VString "mac" ]} ]} ]})).
  vm_compute; reflexivity.
Defined.

(** Three refused probes, then the deadline: the error is the one the
    client reported for the fourth probe. *)
Lemma wait_result_witness :
  (DeadlineExceeded = Canceled ∨ DeadlineExceeded = DeadlineExceeded)
  ∧ ∃ res, res ∈ (booting ++ [Do None (Some (UrlError DeadlineExceeded))])%list
           ∧ err res = Some (UrlError DeadlineExceeded).
Proof.
  apply (wait_result string NewRequest target
           (booting ++ [Do None (Some (UrlError DeadlineExceeded))])%list
           (inl (ErrDo DeadlineExceeded))).
  vm_compute; reflexivity.
Defined.

(** [path.Clean] and [path.Join] on paths of every kind. *)
Example Clean_paths :
  map path.Clean
    [ ""; "abc"; "abc/def"; "a/b/c"; "."; ".."; "../.."; "../../abc"; "/abc"; "/";
      "abc/"; "abc/def/"; "a/b/c/"; "./"; "../"; "../../"; "/abc/";
      "abc//def//ghi"; "//abc"; "///abc"; "//abc//"; "abc//";
      "abc/./def"; "/./abc/def"; "abc/.";
      "abc/def/ghi/../jkl"; "abc/def/../ghi/../jkl"; "abc/def/.."; "abc/def/../..";
      "/abc/def/../.."; "abc/def/../../.."; "/abc/def/../../..";
      "abc/def/../../../ghi/jkl/../../../mno";
      "abc/./../def"; "abc//./../def"; "abc/../../././../def" ] =
    [ "."; "abc"; "abc/def"; "a/b/c"; "."; ".."; "../.."; "../../abc"; "/abc"; "/";
      "abc"; "abc/def"; "a/b/c"; "."; ".."; "../.."; "/abc";
      "abc/def/ghi"; "/abc"; "/abc"; "/abc"; "abc";
      "abc/def"; "/abc/def"; "abc";
      "abc/def/jkl"; "abc/jkl"; "abc"; ".";
      "/"; ".."; "/";
      "../../mno";
      "def"; "def"; "../../def" ].
Proof. vm_compute. reflexivity. Qed.

Example Join_paths :
  map path.Join
    [ []; [""]; ["a"]; ["a"; "b"]; ["a"; ""]; [""; "b"]; ["/"; "a"]; ["/"; ""];
      ["a/"; "b"]; ["a/"; ""]; [""; ""]; ["/wd/hub"; "/session"]; [""; "/status"] ] =
    [ ""; ""; "a"; "a/b"; "a"; "b"; "/a"; "/";
      "a/b"; "a"; ""; "/wd/hub/session"; "/status" ].
Proof. vm_compute. reflexivity. Qed.

(** A target under [/wd/hub], and a request whose path has an element
    [..] in it and a slash at its end. *)
Lemma Director_path_witness :
  route.Director (route.mkURL "http" "localhost:4545" "/wd/hub" "")
    (route.mkURL "" "" "/session/../status/" "verbose=1") =
    route.mkURL "http" "localhost:4545" "/wd/hub/status" "verbose=1"
  ∧ Forall elements.plain ["wd"; "hub"; "status"].
Proof.
  apply (Director_path (route.mkURL "http" "localhost:4545" "/wd/hub" "")
           (route.mkURL "" "" "/session/../status/" "verbose=1")
           ["wd"; "hub"] ["session"; ".."; "status"; ""]).
  - repeat constructor; discriminate.
  - repeat constructor; discriminate.
  - discriminate.
  - reflexivity.
  - reflexivity.
Defined.

Lemma Director_joins_witness :
  route.Path (route.Director (route.mkURL "http" "localhost:4545" "/wd/hub" "")
                (route.mkURL "" "" "/session/3f/" "")) =
    "/wd/hub/session/3f".
Proof.
  apply (Director_joins (route.mkURL "http" "localhost:4545" "/wd/hub" "")
           (route.mkURL "" "" "/session/3f/" "")
           ["wd"; "hub"] ["session"; "3f"] "/").
  - repeat constructor; discriminate.
  - repeat constructor; discriminate.
  - reflexivity.
  - reflexivity.
  - by right.
  - discriminate.
Defined.

(** A request for [/../../metrics] leaves the base path [/wd/hub] of the
    target behind. *)
Lemma Director_climbs_witness :
  route.Path (route.Director (route.mkURL "http" "localhost:4545" "/wd/hub" "")
                (route.mkURL "" "" "/../../metrics" "")) =
    "/metrics".
Proof.
  apply (Director_climbs (route.mkURL "http" "localhost:4545" "/wd/hub" "")
           (route.mkURL "" "" "/../../metrics" "")
           ["wd"; "hub"] ["metrics"] 2).
  - repeat constructor; discriminate.
  - repeat constructor; discriminate.
  - lia.
  - reflexivity.
  - reflexivity.
Defined.

(** ** Numbers, and bodies that are not JSON *)

(** The conversions of the library on literals of every kind: a fraction,
    an exponent, the two bounds of the exponent form, integers beyond
    [2^53], a value out of range, the sign of zero. *)
Example reformat_literals :
  map golang.reformat
    [ "0.1"; "2.5e3"; "1.0"; "100"; "0"; "-0"; "1E-10"; "-1.5e-9";
      "0.000001"; "0.00000099999"; "1e20"; "999999999999999999999"; "1e21"; "1e23";
      "9007199254740992"; "9007199254740993"; "9007199254740995";
      "123456789012345678"; "1e400" ] =
    [ Some (inr "0.1"); Some (inr "2500"); Some (inr "1"); Some (inr "100");
      Some (inr "0"); Some (inr "-0"); Some (inr "1e-10"); Some (inr "-1.5e-9");
      Some (inr "0.000001"); Some (inr "9.9999e-7");
      Some (inr "100000000000000000000"); Some (inr "1e+21"); Some (inr "1e+21");
      Some (inr "1e+23");
      Some (inr "9007199254740992"); Some (inr "9007199254740992");
      Some (inr "9007199254740996");
      Some (inr "123456789012345680"); None ].
Proof. vm_compute. reflexivity. Qed.

Example ParseFloat_tenth :
  golang.ParseFloat "0.1" = Some (S754_finite false 7205759403792794 (-56)).
Proof. vm_compute. reflexivity. Qed.

(** Strings on their way out: control bytes, [<], [>] and [&] escaped,
    members in the order of their keys. *)
Example Marshal_escapes :
  golang.Marshal
    (VMap {[ "a<b" := VString (String "010" (String "001" "x&y>"));
             "a" := VSlice [VNil; VBool true; VSlice []; VMap ∅] ]}) =
    inr (js "{'a':[null,true,[],{}],'a\u003cb':'\n\u0001x\u0026y\u003e'}").
Proof. vm_compute. reflexivity. Qed.

(** A number out of range: inside an object it is the error of the
    conversion, and a value that is not an object is turned down by its
    kind before its numbers are looked at. *)
Example out_of_range :
  map golang.Decode [ js "{'k':1e400}"; "[1e400]"; "1e400" ] =
    [ inl (UnmarshalTypeError "number 1e400");
      inl (UnmarshalTypeError "array");
      inl (UnmarshalTypeError "number") ].
Proof. vm_compute. reflexivity. Qed.

(** With the library's encoder the session request leaves as it does
    with the plain one. *)
Example golang_new_session :
  golang.handler (post new_session) = handler (post new_session).
Proof. vm_compute. reflexivity. Qed.

(** C3, as stated, fails: the member [id] is not one the handler deletes,
    and the body that is forwarded has another number under it. *)
Lemma inbound_integer_not_preserved :
  golang.large_id = js "{'id':9007199254740993}"
  ∧ golang.handler (post golang.large_id) =
      ServeHTTP (Request.mk "POST" "/session" (js "{'id':9007199254740992}") 23)
  ∧ golang.Decode (js "{'id':9007199254740992}") = golang.Decode golang.large_id
  ∧ golang.reformat "9007199254740993" = Some (inr "9007199254740992").
Proof. repeat split; vm_compute; reflexivity. Qed.

(** C2, as stated, fails: [sessionId] is a field of [value] other than
    [capabilities], and the client gets another number under it. *)
Lemma outbound_integer_not_preserved :
  golang.ModifyResponse (ok golang.large_session) =
    Returns (inr (Response.mk 200 ∅
      (js ("{'value':{'capabilities':{'browserName':'safari','browserVersion':'13.0'},"
           +:+ "'sessionId':9007199254740992}}"))
      104))
  ∧ golang.large_session =
      js "{'value':{'capabilities':{},'sessionId':9007199254740993}}".
Proof. split; vm_compute; reflexivity. Qed.

(** C7, as stated, fails: a probe that comes back with a response and
    with the error of the redirect policy does not make [wait] return;
    it pauses and probes again, for as long as the target answers so. *)
Lemma response_with_error_retried :
  resp golang.redirected = Some 302
  ∧ example.wait target [golang.redirected; golang.redirected; golang.redirected] =
      (polls target 3, None)
  ∧ example.wait target [golang.redirected; Do (Some 200) None] =
      ([Head target; After (100 * Millisecond); Head target], Some (inr target)).
Proof. repeat split; vm_compute; reflexivity. Qed.

(** C10, as stated, fails: these bodies are neither a JSON object nor the
    literal [null] (they are not JSON), and their requests are proxied. *)
Lemma proxied_body_not_json :
  Valid ParseFloat "nullx" = false
  ∧ handler (post "nullx") = ServeHTTP (Request.mk "POST" "/session" "null" 4)
  ∧ Valid ParseFloat (js "{'a':1}]") = false
  ∧ handler (post (js "{'a':1}]")) =
      ServeHTTP (Request.mk "POST" "/session" (js "{'a':1}") 7).
Proof. repeat split; vm_compute; reflexivity. Qed.
